(** * pkg/util/log: the klog-backed logr.Logger

    A shallow embedding of [pkg/util/log/log.go].  The Go program allocates
    [*log] structs and the backing arrays of their [prefixes] slices on the
    heap, and writes lines to the process-wide klog backend; the embedding
    threads a [world] holding those three stores through every method. *)

From stdpp Require Import base strings list.
From Stdlib Require Import ZArith DecimalString Lia.

(** ** strings.Join *)

Module strings.

(** [strings.Join(elems, sep)]: nothing for no element, the element itself
    for one, otherwise the elements with [sep] between neighbours. *)
Fixpoint Join (elems : list string) (sep : string) : string :=
  match elems with
  | [] => ""
  | [e] => e
  | e :: rest => e +:+ sep +:+ Join rest sep
  end.

End strings.

(** ** Values behind [interface{}] and [error] *)

(** Dynamic values that are neither a [string] nor an [error]: the ones the
    type switch of [formatKeysAndValues] sends to its [default] branch. *)
Inductive other :=
| ONil                          (* the nil interface value *)
| OInt (n : Z)                  (* an int *)
| OBool (b : bool)              (* a bool *)
| OOpaque (gosyntax : string).  (* any other type, with its Go-syntax text *)

(** An [interface{}] value as the type switch tells them apart. *)
Inductive value :=
| VString (t : string)          (* dynamic type string *)
| VError (text : string)        (* implements error; t.Error() is [text] *)
| VOther (o : other).

(** A value of the interface type [error]. *)
Inductive error :=
| ErrNil
| Err (text : string).

(** Storing an [error] in an [interface{}] slot, as [[]interface{}{err}]
    does: a nil [error] becomes the nil interface value. *)
Definition iface (err : error) : value :=
  match err with
  | ErrNil => VOther ONil
  | Err text => VError text
  end.

Module fmt.

(** [fmt.Sprintf("%#v", kv)] on the values of the [default] branch. *)
Definition Sprintf_sharp_v (o : other) : string :=
  match o with
  | ONil => "<nil>"
  | OInt n => NilZero.string_of_int (Z.to_int n)
  | OBool true => "true"
  | OBool false => "false"
  | OOpaque gosyntax => gosyntax
  end.

End fmt.

(** ** The heap: slices, backing arrays, log structs, and the klog output *)

(** A [[]string] slice header.  A slice of capacity 0 (the nil slice and
    [[]string{}]) never has its array pointer followed. *)
Record slice := Slice { s_arr : nat; s_len : nat; s_cap : nat }.

(** [type log struct], with Go's [int] as [Z]: the program only stores and
    compares these numbers. *)
Record log := Log {
  current : Z;
  level : Z;
  prefixes : slice;
  depth : Z
}.

(** A [logr.Logger] interface value: a [*log] or a [*silent].  [silent] is
    a zero-size struct, so its pointers carry no identity. *)
Inductive Logger :=
| LogRef (p : nat)
| SilentRef.

(** One call into klog. *)
Inductive call :=
| InfoDepth (depth : Z) (line : string)
| ErrorDepth (depth : Z) (line : string).

Record world := World {
  logs : list log;             (* allocated log structs, by address *)
  arrays : list (list string); (* allocated backing arrays, by address *)
  out : list call              (* calls made to klog, oldest first *)
}.

Definition empty_world : world := World [] [] [].

(** The elements [s[0:len(s)]] of a slice. *)
Definition elems (w : world) (s : slice) : list string :=
  take (s_len s) (default [] (arrays w !! s_arr s)).

(** [[]string{}] *)
Definition empty_slice : slice := Slice 0 0 0.

(** ** Computations over the world *)

(** A computation reads and updates the world, or panics ([None]). *)
Definition M (A : Type) : Type := world -> option (A * world).

#[global] Instance M_ret : MRet M := fun A a w => Some (a, w).
#[global] Instance M_bind : MBind M := fun A B k m w =>
  match m w with
  | Some (a, w') => k a w'
  | None => None
  end.

(** [*p] on a [*log]; a pointer that is not allocated panics. *)
Definition deref (p : nat) : M log := fun w =>
  match logs w !! p with
  | Some l => Some (l, w)
  | None => None
  end.

(** [&log{...}] *)
Definition new_log (l : log) : M Logger := fun w =>
  Some (LogRef (length (logs w)), World (logs w ++ [l]) (arrays w) (out w)).

(** Reading the elements of a slice, as [s...] and [strings.Join] do. *)
Definition read (s : slice) : M (list string) := fun w => Some (elems w s, w).

Module klog.

Definition InfoDepth (depth : Z) (line : string) : M unit := fun w =>
  Some (tt, World (logs w) (arrays w) (out w ++ [InfoDepth depth line])).

Definition ErrorDepth (depth : Z) (line : string) : M unit := fun w =>
  Some (tt, World (logs w) (arrays w) (out w ++ [ErrorDepth depth line])).

End klog.

(** ** The rendering helper *)

(** [formatKeysAndValues]: the loop appends one rendered token per value to
    the local [args], which are then joined by single spaces. *)
Definition formatKeysAndValues (keysAndValues : list value) : string :=
  let args :=
    foldl (fun args kv =>
             match kv with
             | VString t => args ++ [t]
             | VError text => args ++ [text]
             | VOther o => args ++ [fmt.Sprintf_sharp_v o]
             end) [] keysAndValues in
  strings.Join args " ".

(** The doubling policy, for running the model on concrete inputs. *)
Definition double (oldcap need : nat) : nat := oldcap + oldcap.

(** A world to run on: a root logger of threshold 2 at address 0, and its
    child named [a] at address 1. *)
Definition demo_root : log := Log 0 2 empty_slice 1.
Definition demo_child : log := Log 0 2 (Slice 0 1 1) 1.
Definition demo_world : world := World [demo_root; demo_child] [["a"]] [].

(** The worlds of [NewLog(0)] and of [NewLog(0).WithValues()] run from the
    empty world: the root at address 0, and at address 1 its child, whose
    one prefix is the empty string. *)
Definition root_world : world := World [Log 0 0 empty_slice 1] [] [].
Definition ctx_child : log := Log 0 0 (Slice 0 1 1) 1.
Definition ctx_world : world :=
  World [Log 0 0 empty_slice 1; ctx_child] [[""]] [].

(** The line of the only call in the output, if there is exactly one. *)
Definition sole_line (r : option (unit * world)) : option string :=
  match r with
  | Some (_, w) =>
      match out w with
      | [InfoDepth _ line] => Some line
      | [ErrorDepth _ line] => Some line
      | _ => None
      end
  | None => None
  end.

Section Log.

(** The capacity the runtime would like for a grown slice, from the old
    capacity and the length needed; [append] never takes less than needed. *)
Variable growslice : nat -> nat -> nat.

(** [append(s, xs...)]: in place when the capacity allows, otherwise into a
    newly allocated array that receives a copy of the old elements. *)
Definition append (s : slice) (xs : list string) : M slice := fun w =>
  let n := (s_len s + length xs) in
  if decide (n <= s_cap s) then
    let write a := take (s_len s) a ++ xs ++ drop n a in
    Some (Slice (s_arr s) n (s_cap s),
          World (logs w) (alter write (s_arr s) (arrays w)) (out w))
  else
    let c := Nat.max n (growslice (s_cap s) n) in
    let a := elems w s ++ xs ++ replicate (c - n) "" in
    Some (Slice (length (arrays w)) n c,
          World (logs w) (arrays w ++ [a]) (out w)).

(** ** Methods of [*log] *)

Definition NewLog (level : Z) : M Logger :=
  new_log {| level := level; depth := 1%Z;
             current := 0%Z; prefixes := empty_slice |}.

Definition log_WithDepth (p : nat) (depth : Z) : M Logger :=
  l ← deref p;
  new_log {| level := level l; current := current l;
             prefixes := prefixes l; depth := depth |}.

(** The body of [formatMsg], on the elements of [l.prefixes]. *)
Definition formatMsg_body (elts : list string) (msg : string)
    (keysAndValues : list value) : string :=
  let prefixes := strings.Join elts ": " in
  let addString := formatKeysAndValues keysAndValues in
  let retString := msg in
  let retString :=
    if bool_decide (prefixes ≠ "") then prefixes +:+ ": " +:+ retString
    else retString in
  let retString :=
    if bool_decide (addString ≠ "") then retString +:+ " " +:+ addString
    else retString in
  retString.

Definition log_formatMsg (p : nat) (msg : string) (keysAndValues : list value)
  : M string :=
  l ← deref p;
  elts ← read (prefixes l);
  mret (formatMsg_body elts msg keysAndValues).

Definition log_Info (p : nat) (msg : string) (keysAndValues : list value)
  : M unit :=
  l ← deref p;
  line ← log_formatMsg p msg keysAndValues;
  klog.InfoDepth (depth l) line.

Definition log_Enabled (p : nat) : bool := true.

Definition log_Error (p : nat) (err : error) (msg : string)
    (keysAndValues : list value) : M unit :=
  let newKeysAndValues := [iface err] in
  let newKeysAndValues := newKeysAndValues ++ keysAndValues in
  l ← deref p;
  line ← log_formatMsg p msg newKeysAndValues;
  klog.ErrorDepth (depth l) line.

Definition log_V (p : nat) (lvl : Z) : M Logger :=
  l ← deref p;
  if bool_decide (lvl < level l)%Z then mret SilentRef
  else
    let prefixes0 := empty_slice in
    elts ← read (prefixes l);
    prefixes1 ← append prefixes0 elts;
    new_log {| level := level l; current := lvl;
               prefixes := prefixes1; depth := depth l |}.

Definition log_WithValues (p : nat) (keysAndValues : list value) : M Logger :=
  l ← deref p;
  let prefixes0 := empty_slice in
  elts ← read (prefixes l);
  prefixes1 ← append prefixes0 elts;
  prefixes2 ← append prefixes1 [formatKeysAndValues keysAndValues];
  new_log {| level := level l; current := current l;
             prefixes := prefixes2; depth := depth l |}.

Definition log_WithName (p : nat) (name : string) : M Logger :=
  l ← deref p;
  if bool_decide (name = "") then
    new_log {| level := level l; current := current l;
               prefixes := prefixes l; depth := depth l |}
  else
    let prefixes0 := empty_slice in
    elts ← read (prefixes l);
    prefixes1 ← append prefixes0 elts;
    prefixes2 ← append prefixes1 [name];
    new_log {| level := level l; current := current l;
               prefixes := prefixes2; depth := depth l |}.

(** ** Methods of [*silent] *)

Definition silent_Info (msg : string) (keysAndValues : list value) : M unit :=
  mret tt.
Definition silent_Enabled : bool := false.
Definition silent_Error (err : error) (msg : string)
    (keysAndValues : list value) : M unit :=
  mret tt.
Definition silent_V (lvl : Z) : M Logger := mret SilentRef.
Definition silent_WithValues (keysAndValues : list value) : M Logger :=
  mret SilentRef.
Definition silent_WithName (name : string) : M Logger := mret SilentRef.

(** ** The [logr.Logger] interface: dynamic dispatch on the handle *)

Definition Info (h : Logger) (msg : string) (kvs : list value) : M unit :=
  match h with
  | LogRef p => log_Info p msg kvs
  | SilentRef => silent_Info msg kvs
  end.

Definition Enabled (h : Logger) : bool :=
  match h with
  | LogRef p => log_Enabled p
  | SilentRef => silent_Enabled
  end.

Definition Error (h : Logger) (err : error) (msg : string) (kvs : list value)
  : M unit :=
  match h with
  | LogRef p => log_Error p err msg kvs
  | SilentRef => silent_Error err msg kvs
  end.

Definition V (h : Logger) (lvl : Z) : M Logger :=
  match h with
  | LogRef p => log_V p lvl
  | SilentRef => silent_V lvl
  end.

Definition WithValues (h : Logger) (kvs : list value) : M Logger :=
  match h with
  | LogRef p => log_WithValues p kvs
  | SilentRef => silent_WithValues kvs
  end.

Definition WithName (h : Logger) (name : string) : M Logger :=
  match h with
  | LogRef p => log_WithName p name
  | SilentRef => silent_WithName name
  end.

(** ** Derivations *)

(** The three derivations of the [logr.Logger] interface. *)
Inductive derivation :=
| DV (lvl : Z)
| DWithValues (kvs : list value)
| DWithName (name : string).

Definition derive (h : Logger) (d : derivation) : M Logger :=
  match d with
  | DV lvl => V h lvl
  | DWithValues kvs => WithValues h kvs
  | DWithName name => WithName h name
  end.

(** A chain [h.d1.d2...dn] of derivations. *)
Fixpoint derive_all (h : Logger) (ds : list derivation) : M Logger :=
  match ds with
  | [] => mret h
  | d :: ds' => h' ← derive h d; derive_all h' ds'
  end.

(** The derivations of a [*log], which also implements [WithDepth]. *)
Inductive log_derivation :=
| OfLogger (d : derivation)
| DWithDepth (depth : Z).

Definition log_derive (p : nat) (d : log_derivation) : M Logger :=
  match d with
  | OfLogger d' => derive (LogRef p) d'
  | DWithDepth depth => log_WithDepth p depth
  end.

(** ** Well-formed worlds *)

(** A slice header is within its capacity, and a slice with capacity points
    to an allocated array of that capacity. *)
Definition slice_ok (w : world) (s : slice) : Prop :=
  s_len s <= s_cap s /\
  (s_cap s = 0 \/
   exists a, arrays w !! s_arr s = Some a /\ length a = s_cap s).

Definition wf (w : world) : Prop :=
  forall p l, logs w !! p = Some l -> slice_ok w (prefixes l).

(** [w'] comes from [w] by allocation alone: every log struct and array of
    [w] is still there as it was, and klog saw no further call. *)
Definition allocates (w w' : world) : Prop :=
  (exists ls, logs w' = logs w ++ ls) /\
  (exists tl, arrays w' = arrays w ++ tl) /\
  out w' = out w.

(** The text of one value, as the type switch picks it. *)
Definition token (kv : value) : string :=
  match kv with
  | VString t => t
  | VError text => text
  | VOther o => fmt.Sprintf_sharp_v o
  end.

(** ** The specification's wording of the line *)

(** The line as the specification words it: the prefix segment is left out
    when there is no prefix, the pairs segment when there is no pair. *)
Definition spec_line (prefixes : list string) (msg : string)
    (pairs : list value) : string :=
  match prefixes with
  | [] => ""
  | _ => strings.Join prefixes ": " +:+ ": "
  end
  +:+ msg +:+
  match pairs with
  | [] => ""
  | _ => " " +:+ strings.Join (token <$> pairs) " "
  end.

(** A line holds a doubled separator. *)
Definition doubled_separator (line : string) : Prop :=
  exists a b, line = a +:+ ": : " +:+ b.

(** ** Chains of derivations *)

(** What one derivation adds to the prefixes: [WithValues] always one entry,
    [WithName] one entry unless the name is empty, [V] nothing. *)
Definition entry (d : derivation) : list string :=
  match d with
  | DV _ => []
  | DWithValues kvs => [formatKeysAndValues kvs]
  | DWithName name => if decide (name = "") then [] else [name]
  end.

Fixpoint entries (ds : list derivation) : list string :=
  match ds with
  | [] => []
  | d :: ds' => entry d ++ entries ds'
  end.

(** Whether a derivation is a [V] under the threshold [T], and whether a
    chain has one. *)
Definition under (T : Z) (d : derivation) : bool :=
  match d with
  | DV lvl => bool_decide (lvl < T)%Z
  | _ => false
  end.

Definition gated (T : Z) (ds : list derivation) : bool := existsb (under T) ds.

(** The level the last [V] of a chain asked for, [c] if there is none. *)
Definition last_level (c : Z) (ds : list derivation) : Z :=
  foldl (fun c d => match d with DV lvl => lvl | _ => c end) c ds.

(** A handle that can be used: the null logger, or an allocated [*log]. *)
Definition live_handle (w : world) (h : Logger) : Prop :=
  match h with
  | LogRef p => is_Some (logs w !! p)
  | SilentRef => True
  end.

(** ** Strings and joins *)

Lemma append_empty_r (s : string) : s +:+ "" = s.
Proof.
  induction s as [|c s IH]; [done |].
  change (String c s +:+ "") with (String c (s +:+ "")). by rewrite IH.
Qed.

Lemma append_assoc (a b c : string) : (a +:+ b) +:+ c = a +:+ (b +:+ c).
Proof.
  induction a as [|x a IH]; [done |].
  change ((String x a +:+ b) +:+ c) with (String x ((a +:+ b) +:+ c)).
  by rewrite IH.
Qed.

Lemma append_eq_empty (a b : string) : a +:+ b = "" -> a = "" /\ b = "".
Proof. destruct a; [done | discriminate]. Qed.

Lemma Join_cons (e : string) (rest : list string) (sep : string) :
  rest <> [] ->
  strings.Join (e :: rest) sep = e +:+ sep +:+ strings.Join rest sep.
Proof. destruct rest; [done | reflexivity]. Qed.

Lemma Join_snoc (elems : list string) (e sep : string) :
  elems <> [] ->
  strings.Join (elems ++ [e]) sep = strings.Join elems sep +:+ sep +:+ e.
Proof.
  induction elems as [|x xs IH]; [done |]. intros _.
  destruct xs as [|y ys].
  - reflexivity.
  - change ((x :: y :: ys) ++ [e]) with (x :: ((y :: ys) ++ [e])).
    rewrite Join_cons by (by destruct ys).
    rewrite IH by done.
    rewrite (Join_cons x (y :: ys)) by done.
    by rewrite !append_assoc.
Qed.

Lemma formatKeysAndValues_tokens (kvs : list value) :
  formatKeysAndValues kvs = strings.Join (token <$> kvs) " ".
Proof.
  unfold formatKeysAndValues. f_equal.
  enough (H : forall acc,
    foldl (fun args kv =>
             match kv with
             | VString t => args ++ [t]
             | VError text => args ++ [text]
             | VOther o => args ++ [fmt.Sprintf_sharp_v o]
             end) acc kvs = acc ++ (token <$> kvs)) by apply (H []).
  induction kvs as [|kv kvs IH]; intros acc; simpl.
  - by rewrite app_nil_r.
  - rewrite IH. destruct kv; simpl; by rewrite <- app_assoc.
Qed.

(** ** Running the primitive computations *)

Lemma deref_live (w : world) (p : nat) (l : log) :
  logs w !! p = Some l -> deref p w = Some (l, w).
Proof. intros H. unfold deref. by rewrite H. Qed.

Lemma bind_run {A B} (m : M A) (k : A -> M B) (w w' : world) (a : A) :
  m w = Some (a, w') -> (m ≫= k) w = k a w'.
Proof. intros H. unfold mbind, M_bind. by rewrite H. Qed.

Lemma elems_length (w : world) (s : slice) :
  slice_ok w s -> length (elems w s) = s_len s.
Proof.
  intros [Hle [Hc | (a & Ha & Hl)]]; unfold elems.
  - assert (s_len s = 0) as -> by lia. by rewrite take_0.
  - rewrite Ha. simpl. rewrite length_take. lia.
Qed.

Lemma empty_slice_ok (w : world) : slice_ok w empty_slice.
Proof. split; simpl; [lia | by left]. Qed.

(** ** Appending to a slice nobody else holds *)

(** [append] on a slice that is empty or whose array was allocated after
    [w0]: the arrays of [w0] are left alone, and the result is again such a
    slice, holding the old elements followed by the new ones. *)
Lemma append_owned (w0 w : world) (s : slice) (xs : list string) :
  (exists tl, arrays w = arrays w0 ++ tl) ->
  slice_ok w s ->
  (s_cap s = 0 \/ length (arrays w0) <= s_arr s) ->
  exists s' tl',
    append s xs w = Some (s', World (logs w) (arrays w0 ++ tl') (out w)) /\
    slice_ok (World (logs w) (arrays w0 ++ tl') (out w)) s' /\
    (s_cap s' = 0 \/ length (arrays w0) <= s_arr s') /\
    elems (World (logs w) (arrays w0 ++ tl') (out w)) s' = elems w s ++ xs.
Proof.
  intros [tl Htl] Hok Hown. pose proof (elems_length w s Hok) as Hlen.
  destruct Hok as [Hle Harr]. unfold append.
  destruct (decide (s_len s + length xs <= s_cap s)) as [Hfit | Hgrow].
  - destruct (decide (s_cap s = 0)) as [Hc | Hc].
    + (* nothing to write *)
      assert (s_len s = 0) as Hl0 by lia.
      assert (xs = []) as -> by (destruct xs; simpl in *; [done | lia]).
      exists (Slice (s_arr s) (s_len s + 0) (s_cap s)), tl.
      rewrite list_alter_id, Htl; last first.
      { intros a. rewrite Hl0. simpl. by rewrite drop_0. }
      split; [done |]. split; [split; simpl; [lia | by left] |].
      split; [by left |].
      unfold elems at 1. simpl. rewrite Hl0. simpl.
      unfold elems. rewrite Hl0. by rewrite take_0.
    + (* written in place, into an array of the tail *)
      destruct Harr as [? | (a & Ha & Hla)]; [done |].
      destruct Hown as [? | Hfresh]; [done |].
      set (write := fun a0 : list string =>
                      take (s_len s) a0 ++ xs ++ drop (s_len s + length xs) a0).
      exists (Slice (s_arr s) (s_len s + length xs) (s_cap s)),
             (alter write (s_arr s - length (arrays w0)) tl).
      assert (alter write (s_arr s) (arrays w)
              = arrays w0 ++ alter write (s_arr s - length (arrays w0)) tl)
        as Halter.
      { rewrite Htl.
        replace (s_arr s) with (length (arrays w0) + (s_arr s - length (arrays w0)))
          at 1 by lia.
        apply alter_app_r. }
      rewrite Halter. split; [done |].
      assert ((arrays w0 ++ alter write (s_arr s - length (arrays w0)) tl)
                !! s_arr s = Some (write a)) as Hlook.
      { rewrite <- Halter, list_lookup_alter_eq, Ha. done. }
      assert (length (write a) = s_cap s) as Hlw.
      { unfold write. rewrite !length_app, length_take, length_drop. lia. }
      split; [split; simpl; [lia | right; eauto] |].
      split; [by right |].
      unfold elems at 1. simpl. rewrite Hlook. simpl. unfold write.
      rewrite app_assoc, take_app_length'.
      * unfold elems. by rewrite Ha.
      * rewrite length_app, length_take. lia.
  - (* grown into a new array *)
    set (n := s_len s + length xs).
    set (c := Nat.max n (growslice (s_cap s) n)).
    set (a' := elems w s ++ xs ++ replicate (c - n) "").
    exists (Slice (length (arrays w)) n c), (tl ++ [a']).
    rewrite Htl at 2. rewrite <- app_assoc. split; [done |].
    assert ((arrays w0 ++ tl ++ [a']) !! length (arrays w) = Some a') as Hlook.
    { rewrite app_assoc, <- Htl. apply list_lookup_middle. done. }
    assert (length a' = c) as Hla'.
    { unfold a'. rewrite !length_app, length_replicate, Hlen. lia. }
    split; [split; simpl; [lia | right; eauto] |].
    split; [right; simpl; rewrite Htl, length_app; lia |].
    unfold elems at 1. simpl. rewrite Hlook. simpl. unfold a'.
    rewrite app_assoc, take_app_length'; [done |].
    rewrite length_app, Hlen. done.
Qed.

(** ** Allocation leaves what exists alone *)

Lemma allocates_refl (w : world) : allocates w w.
Proof.
  repeat split; [exists [] | exists []]; by rewrite app_nil_r.
Qed.

Lemma allocates_live (w w' : world) (p : nat) (l : log) :
  allocates w w' -> logs w !! p = Some l -> logs w' !! p = Some l.
Proof. intros ([ls ->] & _ & _) H. by apply lookup_app_l_Some. Qed.

Lemma allocates_slice_ok (w w' : world) (s : slice) :
  allocates w w' -> slice_ok w s -> slice_ok w' s.
Proof.
  intros (_ & [tl Htl] & _) [Hle Harr]. split; [done |].
  destruct Harr as [? | (a & Ha & Hl)]; [by left | right].
  exists a. split; [| done]. rewrite Htl. by apply lookup_app_l_Some.
Qed.

Lemma allocates_elems (w w' : world) (s : slice) :
  allocates w w' -> slice_ok w s -> elems w' s = elems w s.
Proof.
  intros (_ & [tl Htl] & _) [Hle Harr]. unfold elems.
  destruct Harr as [Hc | (a & Ha & Hl)].
  - assert (s_len s = 0) as -> by lia. by rewrite !take_0.
  - rewrite Htl, (lookup_app_l_Some _ _ _ _ Ha), Ha. done.
Qed.

Lemma alloc_log_wf (w : world) (tl : list (list string)) (l' : log) :
  wf w ->
  slice_ok (World (logs w) (arrays w ++ tl) (out w)) (prefixes l') ->
  wf (World (logs w ++ [l']) (arrays w ++ tl) (out w)).
Proof.
  intros Hwf Hok p l. simpl. intros Hp.
  apply lookup_app_Some in Hp as [Hp | [_ Hp]].
  - apply (allocates_slice_ok w); [| by eapply Hwf].
    repeat split; simpl; eauto.
  - apply list_lookup_singleton_Some in Hp as [_ <-]. exact Hok.
Qed.

Lemma alloc_log_allocates (w : world) (tl : list (list string)) (l' : log) :
  allocates w (World (logs w ++ [l']) (arrays w ++ tl) (out w)).
Proof. repeat split; simpl; eauto. Qed.

(** ** The copy that every growing derivation starts with *)

(** [prefixes := []string{}; prefixes = append(prefixes, s...)], with
    whatever follows as the continuation [k]. *)
Lemma copy_run (w : world) (s : slice) :
  exists s1 tl,
    (forall B (k : slice -> M B),
       (elts ← read s; prefixes1 ← append empty_slice elts; k prefixes1) w
       = k s1 (World (logs w) (arrays w ++ tl) (out w))) /\
    slice_ok (World (logs w) (arrays w ++ tl) (out w)) s1 /\
    (s_cap s1 = 0 \/ length (arrays w) <= s_arr s1) /\
    elems (World (logs w) (arrays w ++ tl) (out w)) s1 = elems w s.
Proof.
  destruct (append_owned w w empty_slice (elems w s))
    as (s1 & tl & Hrun & Hok & Hown & Hel).
  - exists []. by rewrite app_nil_r.
  - apply empty_slice_ok.
  - by left.
  - exists s1, tl. split; [| done]. intros B k.
    rewrite (bind_run _ _ w w (elems w s)) by done.
    by rewrite (bind_run _ _ _ _ _ Hrun).
Qed.

(** The same, followed by [prefixes = append(prefixes, x)]. *)
Lemma copy_snoc_run (w : world) (s : slice) (x : string) :
  exists s2 tl,
    (forall B (k : slice -> M B),
       (elts ← read s; prefixes1 ← append empty_slice elts;
        prefixes2 ← append prefixes1 [x]; k prefixes2) w
       = k s2 (World (logs w) (arrays w ++ tl) (out w))) /\
    slice_ok (World (logs w) (arrays w ++ tl) (out w)) s2 /\
    length (arrays w) <= s_arr s2 /\
    elems (World (logs w) (arrays w ++ tl) (out w)) s2 = elems w s ++ [x].
Proof.
  destruct (copy_run w s) as (s1 & tl1 & Hrun1 & Hok1 & Hown1 & Hel1).
  destruct (append_owned w (World (logs w) (arrays w ++ tl1) (out w)) s1 [x])
    as (s2 & tl2 & Hrun2 & Hok2 & Hown2 & Hel2); [by exists tl1 | done..|].
  simpl in *. exists s2, tl2.
  split; [intros B k; by rewrite Hrun1, (bind_run _ _ _ _ _ Hrun2) |].
  split; [done |]. split; [| by rewrite Hel2, Hel1].
  destruct Hown2 as [Hc | ?]; [| done].
  pose proof (elems_length _ _ Hok2) as Hlen. rewrite Hel2, length_app in Hlen.
  destruct Hok2 as [Hle _]. simpl in Hlen. lia.
Qed.

(** ** Running the methods on a live [*log] *)

Lemma log_formatMsg_run (w : world) (p : nat) (l : log) msg kvs :
  logs w !! p = Some l ->
  log_formatMsg p msg kvs w
  = Some (formatMsg_body (elems w (prefixes l)) msg kvs, w).
Proof.
  intros Hp. unfold log_formatMsg.
  by rewrite (bind_run _ _ _ _ _ (deref_live w p l Hp)).
Qed.

Lemma log_Info_run (w : world) (p : nat) (l : log) msg kvs :
  logs w !! p = Some l ->
  log_Info p msg kvs w
  = Some (tt, World (logs w) (arrays w)
                (out w ++ [InfoDepth (depth l)
                             (formatMsg_body (elems w (prefixes l)) msg kvs)])).
Proof.
  intros Hp. unfold log_Info.
  rewrite (bind_run _ _ _ _ _ (deref_live w p l Hp)).
  by rewrite (bind_run _ _ _ _ _ (log_formatMsg_run w p l msg kvs Hp)).
Qed.

Lemma log_Error_run (w : world) (p : nat) (l : log) err msg kvs :
  logs w !! p = Some l ->
  log_Error p err msg kvs w
  = Some (tt, World (logs w) (arrays w)
                (out w ++ [ErrorDepth (depth l)
                             (formatMsg_body (elems w (prefixes l)) msg
                                (iface err :: kvs))])).
Proof.
  intros Hp. unfold log_Error.
  rewrite (bind_run _ _ _ _ _ (deref_live w p l Hp)).
  by rewrite (bind_run _ _ _ _ _ (log_formatMsg_run w p l msg _ Hp)).
Qed.

Lemma log_WithDepth_run (w : world) (p : nat) (l : log) (d : Z) :
  logs w !! p = Some l ->
  log_WithDepth p d w
  = Some (LogRef (length (logs w)),
          World (logs w ++ [Log (current l) (level l) (prefixes l) d])
            (arrays w) (out w)).
Proof.
  intros Hp. unfold log_WithDepth.
  by rewrite (bind_run _ _ _ _ _ (deref_live w p l Hp)).
Qed.

Lemma log_WithName_empty_run (w : world) (p : nat) (l : log) :
  logs w !! p = Some l ->
  log_WithName p "" w
  = Some (LogRef (length (logs w)),
          World (logs w ++ [Log (current l) (level l) (prefixes l) (depth l)])
            (arrays w) (out w)).
Proof.
  intros Hp. unfold log_WithName.
  by rewrite (bind_run _ _ _ _ _ (deref_live w p l Hp)).
Qed.

Lemma log_V_silent_run (w : world) (p : nat) (l : log) (lvl : Z) :
  logs w !! p = Some l -> (lvl < level l)%Z ->
  log_V p lvl w = Some (SilentRef, w).
Proof.
  intros Hp Hlt. unfold log_V.
  rewrite (bind_run _ _ _ _ _ (deref_live w p l Hp)).
  by rewrite bool_decide_eq_true_2.
Qed.

Lemma log_V_run (w : world) (p : nat) (l : log) (lvl : Z) :
  logs w !! p = Some l -> ~ (lvl < level l)%Z ->
  exists s tl,
    log_V p lvl w
    = Some (LogRef (length (logs w)),
            World (logs w ++ [Log lvl (level l) s (depth l)])
              (arrays w ++ tl) (out w)) /\
    slice_ok (World (logs w) (arrays w ++ tl) (out w)) s /\
    (s_cap s = 0 \/ length (arrays w) <= s_arr s) /\
    elems (World (logs w) (arrays w ++ tl) (out w)) s = elems w (prefixes l).
Proof.
  intros Hp Hge.
  destruct (copy_run w (prefixes l)) as (s & tl & Hrun & Hok & Hown & Hel).
  exists s, tl. split; [| done]. unfold log_V.
  rewrite (bind_run _ _ _ _ _ (deref_live w p l Hp)).
  rewrite bool_decide_eq_false_2 by done. by rewrite Hrun.
Qed.

Lemma log_WithValues_run (w : world) (p : nat) (l : log) kvs :
  logs w !! p = Some l ->
  exists s tl,
    log_WithValues p kvs w
    = Some (LogRef (length (logs w)),
            World (logs w ++ [Log (current l) (level l) s (depth l)])
              (arrays w ++ tl) (out w)) /\
    slice_ok (World (logs w) (arrays w ++ tl) (out w)) s /\
    length (arrays w) <= s_arr s /\
    elems (World (logs w) (arrays w ++ tl) (out w)) s
    = elems w (prefixes l) ++ [formatKeysAndValues kvs].
Proof.
  intros Hp.
  destruct (copy_snoc_run w (prefixes l) (formatKeysAndValues kvs))
    as (s & tl & Hrun & Hok & Hown & Hel).
  exists s, tl. split; [| done]. unfold log_WithValues.
  rewrite (bind_run _ _ _ _ _ (deref_live w p l Hp)). by rewrite Hrun.
Qed.

Lemma log_WithName_run (w : world) (p : nat) (l : log) (name : string) :
  logs w !! p = Some l -> name <> "" ->
  exists s tl,
    log_WithName p name w
    = Some (LogRef (length (logs w)),
            World (logs w ++ [Log (current l) (level l) s (depth l)])
              (arrays w ++ tl) (out w)) /\
    slice_ok (World (logs w) (arrays w ++ tl) (out w)) s /\
    length (arrays w) <= s_arr s /\
    elems (World (logs w) (arrays w ++ tl) (out w)) s
    = elems w (prefixes l) ++ [name].
Proof.
  intros Hp Hne.
  destruct (copy_snoc_run w (prefixes l) name)
    as (s & tl & Hrun & Hok & Hown & Hel).
  exists s, tl. split; [| done]. unfold log_WithName.
  rewrite (bind_run _ _ _ _ _ (deref_live w p l Hp)).
  rewrite bool_decide_eq_false_2 by done. by rewrite Hrun.
Qed.

(** Every derivation of a live [*log] returns, and only allocates. *)
Lemma log_derive_allocates (w : world) (p : nat) (l : log) (d : log_derivation) :
  wf w -> logs w !! p = Some l ->
  exists h w', log_derive p d w = Some (h, w') /\ allocates w w' /\ wf w'.
Proof.
  intros Hwf Hp.
  assert (forall l', prefixes l' = prefixes l ->
            wf (World (logs w ++ [l']) (arrays w) (out w))) as Hshare.
  { intros l' Hl'. pose proof (alloc_log_wf w [] l' Hwf) as H.
    rewrite app_nil_r in H. apply H. rewrite Hl'.
    destruct w; simpl. by eapply (Hwf p l). }
  assert (forall l', allocates w (World (logs w ++ [l']) (arrays w) (out w)))
    as Hsharea.
  { intros l'. pose proof (alloc_log_allocates w [] l') as H.
    by rewrite app_nil_r in H. }
  destruct d as [[lvl | kvs | name] | dep]; simpl.
  - destruct (decide (lvl < level l)%Z) as [Hlt | Hge].
    + exists SilentRef, w. rewrite (log_V_silent_run w p l lvl) by done.
      split; [done |]. split; [apply allocates_refl | done].
    + destruct (log_V_run w p l lvl Hp Hge) as (s & tl & -> & Hok & _ & _).
      eexists _, _. split; [done |].
      split; [apply alloc_log_allocates | by apply alloc_log_wf].
  - destruct (log_WithValues_run w p l kvs Hp) as (s & tl & -> & Hok & _ & _).
    eexists _, _. split; [done |].
    split; [apply alloc_log_allocates | by apply alloc_log_wf].
  - destruct (decide (name = "")) as [-> | Hne].
    + rewrite (log_WithName_empty_run w p l Hp).
      eexists _, _. split; [done |]. split; [apply Hsharea | by apply Hshare].
    + destruct (log_WithName_run w p l name Hp Hne)
        as (s & tl & -> & Hok & _ & _).
      eexists _, _. split; [done |].
      split; [apply alloc_log_allocates | by apply alloc_log_wf].
  - rewrite (log_WithDepth_run w p l dep Hp).
    eexists _, _. split; [done |]. split; [apply Hsharea | by apply Hshare].
Qed.

(** ** Rendering *)

Lemma Join_empty_iff (elts : list string) (sep : string) :
  sep <> "" ->
  strings.Join elts sep = "" <-> elts = [] \/ elts = [""].
Proof.
  intros Hsep. split.
  - destruct elts as [|e [|e' rest]]; [by left | |].
    + simpl. intros ->. by right.
    + rewrite Join_cons by done. intros H.
      apply append_eq_empty in H as [_ H].
      apply append_eq_empty in H as [H _]. done.
  - by intros [-> | ->].
Qed.

Lemma formatMsg_body_split (elts : list string) msg kvs :
  formatMsg_body elts msg kvs
  = (if decide (strings.Join elts ": " = "") then ""
     else strings.Join elts ": " +:+ ": ")
    +:+ msg +:+
    (if decide (strings.Join (token <$> kvs) " " = "") then ""
     else " " +:+ strings.Join (token <$> kvs) " ").
Proof.
  unfold formatMsg_body. rewrite formatKeysAndValues_tokens.
  repeat case_bool_decide; repeat case_decide; try done.
  - by rewrite !append_assoc.
  - by rewrite append_empty_r, !append_assoc.
  - by rewrite append_empty_r.
Qed.

Lemma lookup_snoc_new {A} (l : list A) (x : A) :
  (l ++ [x]) !! length l = Some x.
Proof. by apply list_lookup_middle. Qed.

(** ** Verbosity gating *)

(** C1. [V(L)] on a live logger of threshold [T] returns the null logger
    exactly when [L < T]; otherwise it returns a newly allocated logger with
    threshold [T], current level [L], the parent's depth and a copy of the
    parent's prefixes (empty, or in an array of its own), without calling
    klog, and [Info] and [Error] on that logger each make one klog call. *)
Theorem V_gate (w : world) (p : nat) (l : log) (T L : Z) :
  logs w !! p = Some l -> level l = T ->
  exists h w',
    V (LogRef p) L w = Some (h, w') /\
    (h = SilentRef <-> (L < T)%Z) /\
    (~ (L < T)%Z ->
     exists l',
       h = LogRef (length (logs w)) /\
       logs w' !! length (logs w) = Some l' /\
       level l' = T /\ current l' = L /\ depth l' = depth l /\
       elems w' (prefixes l') = elems w (prefixes l) /\
       (s_cap (prefixes l') = 0 \/ length (arrays w) <= s_arr (prefixes l')) /\
       out w' = out w /\
       (forall msg kvs,
          Info h msg kvs w'
          = Some (tt, World (logs w') (arrays w')
                        (out w' ++ [InfoDepth (depth l)
                           (formatMsg_body (elems w (prefixes l)) msg kvs)]))) /\
       (forall err msg kvs,
          Error h err msg kvs w'
          = Some (tt, World (logs w') (arrays w')
                        (out w' ++ [ErrorDepth (depth l)
                           (formatMsg_body (elems w (prefixes l)) msg
                              (iface err :: kvs))])))).
Proof.
  intros Hp <-. simpl.
  destruct (decide (L < level l)%Z) as [Hlt | Hge].
  - exists SilentRef, w. rewrite (log_V_silent_run w p l L Hp Hlt).
    split; [done |]. split; [done | by intros []].
  - destruct (log_V_run w p l L Hp Hge) as (s & tl & Hrun & Hok & Hown & Hel).
    eexists _, _. split; [exact Hrun |].
    split; [split; [discriminate | done] |]. intros _.
    exists (Log L (level l) s (depth l)). simpl.
    pose proof (lookup_snoc_new (logs w) (Log L (level l) s (depth l))) as Hq.
    repeat (split; [done |]). split.
    + intros msg kvs.
      rewrite (log_Info_run _ _ (Log L (level l) s (depth l))) by done.
      simpl. unfold elems in *. simpl in *. by rewrite Hel.
    + intros err msg kvs.
      rewrite (log_Error_run _ _ (Log L (level l) s (depth l))) by done.
      simpl. unfold elems in *. simpl in *. by rewrite Hel.
Qed.

(** ** The rendered line *)

(** C2, as amended.  The line of a live logger is the joined prefixes and
    [": "], then the message, then a space and the space-joined tokens of
    the pairs; the leading segment is left out exactly when the joined
    prefixes are the empty string (no prefix, or the one prefix [""]), the
    trailing one exactly when the joined tokens are (no pair, or one pair
    whose token is [""]).  Prefixes [svc], [worker], message [started] and
    pairs [id], [42] give ["svc: worker: started id 42"]. *)
Theorem formatMsg_line (w : world) (p : nat) (l : log) msg kvs :
  logs w !! p = Some l ->
  let joined := strings.Join (elems w (prefixes l)) ": " in
  let rendered := strings.Join (token <$> kvs) " " in
  log_formatMsg p msg kvs w
  = Some ((if decide (joined = "") then "" else joined +:+ ": ")
          +:+ msg +:+
          (if decide (rendered = "") then "" else " " +:+ rendered), w) /\
  (joined = "" <->
   elems w (prefixes l) = [] \/ elems w (prefixes l) = [""]) /\
  (rendered = "" <-> kvs = [] \/ exists kv, kvs = [kv] /\ token kv = "") /\
  (elems w (prefixes l) = ["svc"; "worker"] ->
   log_formatMsg p "started" [VString "id"; VOther (OInt 42%Z)] w
   = Some ("svc: worker: started id 42", w)).
Proof.
  intros Hp joined rendered.
  split; [by rewrite (log_formatMsg_run w p l msg kvs Hp), formatMsg_body_split |].
  split; [by apply Join_empty_iff |].
  split; [| by intros Hel; rewrite (log_formatMsg_run w p l _ _ Hp), Hel].
  unfold rendered. rewrite Join_empty_iff by done. split.
  - intros [H | H].
    + left. by destruct kvs.
    + right. destruct kvs as [|kv [|kv' kvs]]; try done.
      exists kv. split; [done |]. by injection H.
  - intros [-> | (kv & -> & Hkv)]; [by left | right]. simpl. by rewrite Hkv.
Qed.

(** ** Errors *)

(** C3. [Error(err, msg, pairs...)] hands klog's [ErrorDepth] the very line
    that [Info(msg, err, pairs...)] hands [InfoDepth]: the pairs with [err]
    put in front, whose token comes first in the joined tokens.  Without
    prefixes, [Error(err, "failed")] with [err.Error() == "boom"] renders
    ["failed boom"]. *)
Theorem Error_as_Info (w : world) (p : nat) (l : log) err msg kvs :
  logs w !! p = Some l ->
  let line := formatMsg_body (elems w (prefixes l)) msg (iface err :: kvs) in
  Error (LogRef p) err msg kvs w
  = Some (tt, World (logs w) (arrays w)
                (out w ++ [ErrorDepth (depth l) line])) /\
  Info (LogRef p) msg (iface err :: kvs) w
  = Some (tt, World (logs w) (arrays w)
                (out w ++ [InfoDepth (depth l) line])) /\
  formatKeysAndValues (iface err :: kvs)
  = strings.Join (token (iface err) :: (token <$> kvs)) " " /\
  (elems w (prefixes l) = [] ->
   Error (LogRef p) (Err "boom") "failed" [] w
   = Some (tt, World (logs w) (arrays w)
                 (out w ++ [ErrorDepth (depth l) "failed boom"]))).
Proof.
  intros Hp line. simpl.
  split; [by apply log_Error_run |]. split; [by apply log_Info_run |].
  split; [by rewrite formatKeysAndValues_tokens |].
  intros Hel. by rewrite (log_Error_run w p l _ _ _ Hp), Hel.
Qed.

(** ** The null logger *)

(** C4. On the null logger, [V], [WithValues] and [WithName] return the null
    logger and leave the world as it is, [Info] and [Error] return without
    a klog call, and so does every chain of derivations. *)
Theorem silent_absorbs (w : world) :
  (forall d, derive SilentRef d w = Some (SilentRef, w)) /\
  (forall msg kvs, Info SilentRef msg kvs w = Some (tt, w)) /\
  (forall err msg kvs, Error SilentRef err msg kvs w = Some (tt, w)) /\
  (forall ds, derive_all SilentRef ds w = Some (SilentRef, w)).
Proof.
  assert (forall d, derive SilentRef d w = Some (SilentRef, w)) as Hone
    by (by intros []).
  split; [done |]. split; [done |]. split; [done |].
  induction ds as [|d ds IH]; [done |]. simpl.
  by rewrite (bind_run _ _ _ _ _ (Hone d)).
Qed.

(** ** Derivations and the parent *)

(** C5. In a well-formed world, any derivation of a live logger [A]
    ([WithName], [WithValues], [V], [WithDepth]) returns, leaves [A]'s
    struct (so its threshold and slice header) and the elements of its
    prefixes as they were, makes no klog call, and [A] renders every message
    to the line it rendered before. *)
Theorem derivation_frame (w : world) (p : nat) (a : log) (d : log_derivation) :
  wf w -> logs w !! p = Some a ->
  exists h w',
    log_derive p d w = Some (h, w') /\
    logs w' !! p = Some a /\
    elems w' (prefixes a) = elems w (prefixes a) /\
    out w' = out w /\
    wf w' /\
    forall msg kvs, exists line,
      log_formatMsg p msg kvs w = Some (line, w) /\
      log_formatMsg p msg kvs w' = Some (line, w').
Proof.
  intros Hwf Hp.
  destruct (log_derive_allocates w p a d Hwf Hp) as (h & w' & Hrun & Hal & Hwf').
  exists h, w'. split; [done |].
  pose proof (allocates_live w w' p a Hal Hp) as Hp'.
  pose proof (allocates_elems w w' (prefixes a) Hal (Hwf p a Hp)) as Hel.
  split; [done |]. split; [done |].
  split; [by destruct Hal as (_ & _ & ?) |]. split; [done |].
  intros msg kvs. exists (formatMsg_body (elems w (prefixes a)) msg kvs).
  split; [by apply log_formatMsg_run |].
  by rewrite (log_formatMsg_run w' p a msg kvs Hp'), Hel.
Qed.

(** ** Names *)

Lemma WithName_twice (w : world) (p : nat) (l : log) (n1 n2 : string) :
  logs w !! p = Some l -> n1 <> "" -> n2 <> "" ->
  exists q w' l',
    (a ← WithName (LogRef p) n1; WithName a n2) w = Some (LogRef q, w') /\
    logs w' !! q = Some l' /\
    level l' = level l /\ current l' = current l /\ depth l' = depth l /\
    elems w' (prefixes l') = elems w (prefixes l) ++ [n1; n2] /\
    out w' = out w.
Proof.
  intros Hp H1 H2. simpl.
  destruct (log_WithName_run w p l n1 Hp H1) as (s1 & tl1 & Hrun1 & _ & _ & Hel1).
  rewrite (bind_run _ _ _ _ _ Hrun1). simpl.
  set (l1 := Log (current l) (level l) s1 (depth l)) in *.
  set (w1 := World (logs w ++ [l1]) (arrays w ++ tl1) (out w)).
  assert (logs w1 !! length (logs w) = Some l1) as Hq1
    by apply lookup_snoc_new.
  destruct (log_WithName_run w1 _ l1 n2 Hq1 H2)
    as (s2 & tl2 & Hrun2 & _ & _ & Hel2).
  eexists _, _, _. split; [exact Hrun2 |].
  split; [apply lookup_snoc_new |]. simpl.
  repeat (split; [done |]). split; [| done].
  unfold elems in *. simpl in *. rewrite Hel2, Hel1. by rewrite <- app_assoc.
Qed.

(** C6. [WithName] with non-empty names appends them to the prefixes in call
    order: after [WithName(n1).WithName(n2)] the prefixes are the parent's
    followed by [n1], [n2].  On a root logger, names [a] then [b] render
    the prefix ["a: b"], names [b] then [a] render ["b: a"], and the two
    lines differ. *)
Theorem WithName_order (w : world) (p : nat) (l : log) (n1 n2 : string) :
  logs w !! p = Some l -> n1 <> "" -> n2 <> "" ->
  (exists q w' l',
     (a ← WithName (LogRef p) n1; WithName a n2) w = Some (LogRef q, w') /\
     logs w' !! q = Some l' /\
     elems w' (prefixes l') = elems w (prefixes l) ++ [n1; n2] /\
     forall msg,
       log_formatMsg q msg [] w'
       = Some (formatMsg_body (elems w (prefixes l) ++ [n1; n2]) msg [], w')) /\
  (forall T msg,
     exists w_ab w_ba,
       (base ← NewLog T; x ← WithName base "a"; y ← WithName x "b";
        Info y msg []) w = Some (tt, w_ab) /\
       out w_ab = out w ++ [InfoDepth 1 ("a: b: " +:+ msg)] /\
       (base ← NewLog T; x ← WithName base "b"; y ← WithName x "a";
        Info y msg []) w = Some (tt, w_ba) /\
       out w_ba = out w ++ [InfoDepth 1 ("b: a: " +:+ msg)] /\
       "a: b: " +:+ msg <> "b: a: " +:+ msg).
Proof.
  intros Hp H1 H2. split.
  - destruct (WithName_twice w p l n1 n2 Hp H1 H2)
      as (q & w' & l' & Hrun & Hq & _ & _ & _ & Hel & _).
    exists q, w', l'. split; [done |]. split; [done |]. split; [done |].
    intros msg. by rewrite (log_formatMsg_run w' q l' msg [] Hq), Hel.
  - intros T msg.
    set (l0 := Log 0 T empty_slice 1).
    set (w0 := World (logs w ++ [l0]) (arrays w) (out w)).
    assert (NewLog T w = Some (LogRef (length (logs w)), w0)) as Hnew by done.
    assert (logs w0 !! length (logs w) = Some l0) as Hp0
      by apply lookup_snoc_new.
    assert (elems w0 (prefixes l0) = []) as Hel0 by done.
    assert (forall m1 m2 : string, m1 <> "" -> m2 <> "" ->
              exists w2,
                (base ← NewLog T; x ← WithName base m1; y ← WithName x m2;
                 Info y msg []) w = Some (tt, w2) /\
                out w2 = out w ++ [InfoDepth 1 (formatMsg_body [m1; m2] msg [])])
      as Hchain.
    { intros m1 m2 Hm1 Hm2.
      destruct (WithName_twice w0 _ l0 m1 m2 Hp0 Hm1 Hm2)
        as (q & w' & l' & Hrun & Hq & _ & _ & Hd & Hel & Hout).
      rewrite Hel0 in Hel. simpl in Hel, Hd, Hout.
      rewrite (bind_run _ _ _ _ _ Hnew).
      unfold mbind, M_bind in Hrun |- *.
      destruct (WithName (LogRef (length (logs w))) m1 w0)
        as [[x w1] |]; [| done].
      rewrite Hrun. simpl.
      rewrite (log_Info_run w' q l' msg [] Hq), Hel, Hd, Hout.
      by eexists. }
    destruct (Hchain "a" "b") as (w_ab & Hab & Hoab); [done.. |].
    destruct (Hchain "b" "a") as (w_ba & Hba & Hoba); [done.. |].
    exists w_ab, w_ba. by repeat (split; [done |]).
Qed.

(** Two pointers to equal structs behave alike: every method starts by
    reading the struct and goes on from its fields alone. *)
Lemma same_struct_Info (w : world) (p q : nat) (l : log) msg kvs :
  logs w !! p = Some l -> logs w !! q = Some l ->
  log_Info q msg kvs w = log_Info p msg kvs w.
Proof.
  intros Hp Hq.
  by rewrite (log_Info_run w p l), (log_Info_run w q l).
Qed.

Lemma same_struct_Error (w : world) (p q : nat) (l : log) err msg kvs :
  logs w !! p = Some l -> logs w !! q = Some l ->
  log_Error q err msg kvs w = log_Error p err msg kvs w.
Proof.
  intros Hp Hq.
  by rewrite (log_Error_run w p l), (log_Error_run w q l).
Qed.

Lemma same_struct_derive (w : world) (p q : nat) (l : log) (d : log_derivation) :
  logs w !! p = Some l -> logs w !! q = Some l ->
  log_derive q d w = log_derive p d w.
Proof.
  intros Hp Hq.
  pose proof (deref_live w p l Hp) as Dp.
  pose proof (deref_live w q l Hq) as Dq.
  destruct d as [[lvl | kvs | name] | dep]; simpl;
    [unfold log_V | unfold log_WithValues | unfold log_WithName
    | unfold log_WithDepth];
    by rewrite (bind_run _ _ _ _ _ Dp), (bind_run _ _ _ _ _ Dq).
Qed.

(** C7. [L.WithName("")] on a live logger returns a pointer that was not
    allocated before, to a struct equal to [L]'s in all four fields (the
    prefixes being the same slice); nothing else changes, and the two
    handles render, log and derive alike. *)
Theorem WithName_empty_copy (w : world) (p : nat) (l : log) :
  logs w !! p = Some l ->
  exists q w',
    WithName (LogRef p) "" w = Some (LogRef q, w') /\
    q <> p /\ logs w !! q = None /\
    logs w' !! p = Some l /\ logs w' !! q = Some l /\
    arrays w' = arrays w /\ out w' = out w /\
    (forall msg kvs,
       log_formatMsg q msg kvs w' = log_formatMsg p msg kvs w') /\
    (forall msg kvs,
       Info (LogRef q) msg kvs w' = Info (LogRef p) msg kvs w') /\
    (forall err msg kvs,
       Error (LogRef q) err msg kvs w' = Error (LogRef p) err msg kvs w') /\
    (forall d, log_derive q d w' = log_derive p d w').
Proof.
  intros Hp. simpl. rewrite (log_WithName_empty_run w p l Hp).
  eexists _, _. split; [done |].
  pose proof (lookup_lt_Some _ _ _ Hp) as Hlt.
  split; [lia |]. split; [by apply lookup_ge_None_2 |]. simpl.
  assert ((logs w ++ [Log (current l) (level l) (prefixes l) (depth l)])
            !! p = Some l) as Hp' by (by apply lookup_app_l_Some).
  assert ((logs w ++ [Log (current l) (level l) (prefixes l) (depth l)])
            !! length (logs w) = Some l) as Hq'.
  { rewrite lookup_snoc_new. by destruct l. }
  repeat (split; [done |]).
  split; [| split; [| split]].
  - intros msg kvs.
    by rewrite (log_formatMsg_run _ p l), (log_formatMsg_run _ _ l).
  - intros msg kvs. by apply (same_struct_Info _ _ _ l).
  - intros err msg kvs. by apply (same_struct_Error _ _ _ l).
  - intros d. by apply (same_struct_derive _ _ _ l).
Qed.

(** ** Call depth *)

(** C8. [WithDepth(d)] on a live logger returns a new logger whose struct
    has the parent's threshold, current level and prefixes slice and depth
    [d]; it renders every message to the parent's line, and its [Info] and
    [Error] hand klog that line together with [d]. *)
Theorem WithDepth_only_depth (w : world) (p : nat) (l : log) (d : Z) :
  logs w !! p = Some l ->
  exists q w',
    log_WithDepth p d w = Some (LogRef q, w') /\
    logs w' !! q = Some (Log (current l) (level l) (prefixes l) d) /\
    logs w' !! p = Some l /\
    arrays w' = arrays w /\ out w' = out w /\
    forall msg kvs,
      let line := formatMsg_body (elems w (prefixes l)) msg kvs in
      log_formatMsg p msg kvs w = Some (line, w) /\
      log_formatMsg q msg kvs w' = Some (line, w') /\
      Info (LogRef q) msg kvs w'
      = Some (tt, World (logs w') (arrays w') (out w' ++ [InfoDepth d line])) /\
      Info (LogRef p) msg kvs w
      = Some (tt, World (logs w) (arrays w)
                    (out w ++ [InfoDepth (depth l) line])) /\
      forall err,
        let eline :=
          formatMsg_body (elems w (prefixes l)) msg (iface err :: kvs) in
        Error (LogRef q) err msg kvs w'
        = Some (tt, World (logs w') (arrays w')
                      (out w' ++ [ErrorDepth d eline])) /\
        Error (LogRef p) err msg kvs w
        = Some (tt, World (logs w) (arrays w)
                      (out w ++ [ErrorDepth (depth l) eline])).
Proof.
  intros Hp. rewrite (log_WithDepth_run w p l d Hp).
  set (l' := Log (current l) (level l) (prefixes l) d).
  eexists _, _. split; [done |]. simpl.
  assert ((logs w ++ [l']) !! length (logs w) = Some l') as Hq
    by apply lookup_snoc_new.
  split; [done |]. split; [by apply lookup_app_l_Some |].
  split; [done |]. split; [done |]. intros msg kvs.
  split; [by apply log_formatMsg_run |].
  split; [by rewrite (log_formatMsg_run _ _ l') |].
  split; [by rewrite (log_Info_run _ _ l') |].
  split; [by apply log_Info_run |]. intros err.
  split; [by rewrite (log_Error_run _ _ l') | by apply log_Error_run].
Qed.

(** ** A nil error *)

(** C9. [Error] with a nil [err] on a live logger returns after one klog
    call: the nil interface value takes the [default] branch of the type
    switch and is rendered by [%#v] as the token ["<nil>"], which follows
    the message and comes before the tokens of the pairs. *)
Theorem Error_nil (w : world) (p : nat) (l : log) msg kvs :
  logs w !! p = Some l ->
  token (iface ErrNil) = fmt.Sprintf_sharp_v ONil /\
  fmt.Sprintf_sharp_v ONil = "<nil>" /\
  formatKeysAndValues (iface ErrNil :: kvs)
  = "<nil>" +:+ (if decide (kvs = []) then ""
                  else " " +:+ formatKeysAndValues kvs) /\
  Error (LogRef p) ErrNil msg kvs w
  = Some (tt, World (logs w) (arrays w)
                (out w ++ [ErrorDepth (depth l)
                   (formatMsg_body (elems w (prefixes l)) msg []
                    +:+ " " +:+ formatKeysAndValues (iface ErrNil :: kvs))])).
Proof.
  intros Hp. split; [done |]. split; [done |].
  assert (formatKeysAndValues (iface ErrNil :: kvs)
          = "<nil>" +:+ (if decide (kvs = []) then ""
                          else " " +:+ formatKeysAndValues kvs)) as Hfmt.
  { rewrite !formatKeysAndValues_tokens. simpl token.
    destruct kvs as [|kv kvs]; [done |].
    rewrite fmap_cons, Join_cons by done.
    by destruct (decide (kv :: kvs = [])). }
  split; [done |]. simpl. rewrite (log_Error_run w p l ErrNil msg kvs Hp).
  do 4 f_equal. unfold formatMsg_body.
  change (formatKeysAndValues []) with "".
  rewrite (bool_decide_eq_false_2 ("" ≠ "")) by (by intros H; apply H).
  rewrite (bool_decide_eq_true_2
             (formatKeysAndValues (iface ErrNil :: kvs) ≠ "")); [done |].
  by rewrite Hfmt.
Qed.

(** ** An empty context entry *)

(** C10, as amended.  [WithValues] with pairs whose joined tokens are the
    empty string (no pair, or one pair whose token is [""]) still appends
    one entry, [""], to the prefixes.  When the parent has prefixes, every
    line of the derived logger is the parent's joined prefixes, the doubled
    separator [": : "], then the message and the pairs; when the parent has
    none, the derived logger renders the parent's line. *)
Theorem WithValues_empty_entry (w : world) (p : nat) (l : log) kvs :
  logs w !! p = Some l -> formatKeysAndValues kvs = "" ->
  (kvs = [] \/ exists kv, kvs = [kv] /\ token kv = "") /\
  exists q w' l',
    WithValues (LogRef p) kvs w = Some (LogRef q, w') /\
    logs w' !! q = Some l' /\
    elems w' (prefixes l') = elems w (prefixes l) ++ [""] /\
    forall msg kvs',
      (elems w (prefixes l) <> [] ->
       log_formatMsg q msg kvs' w'
       = Some (strings.Join (elems w (prefixes l)) ": " +:+ ": : "
               +:+ formatMsg_body [] msg kvs', w')) /\
      (elems w (prefixes l) = [] ->
       log_formatMsg q msg kvs' w'
       = Some (formatMsg_body (elems w (prefixes l)) msg kvs', w')).
Proof.
  intros Hp Hempty. split.
  - rewrite formatKeysAndValues_tokens in Hempty.
    apply Join_empty_iff in Hempty as [H | H]; [| | done].
    + left. by destruct kvs.
    + right. destruct kvs as [|kv [|kv' kvs]]; try done.
      exists kv. split; [done |]. by injection H.
  - simpl.
    destruct (log_WithValues_run w p l kvs Hp) as (s & tl & Hrun & _ & _ & Hel).
    rewrite Hempty in Hel.
    set (l' := Log (current l) (level l) s (depth l)) in *.
    set (w' := World (logs w ++ [l']) (arrays w ++ tl) (out w)) in *.
    assert (logs w' !! length (logs w) = Some l') as Hq
      by apply lookup_snoc_new.
    exists (length (logs w)), w', l'. split; [exact Hrun |].
    split; [exact Hq |]. split; [exact Hel |]. intros msg kvs'.
    rewrite (log_formatMsg_run w' _ l' msg kvs' Hq).
    simpl prefixes. unfold elems in Hel |- *. simpl in Hel |- *. rewrite Hel.
    set (ps := take (s_len (prefixes l))
                 (default [] (arrays w !! s_arr (prefixes l)))).
    split.
    + intros Hne. do 2 f_equal. unfold formatMsg_body.
      rewrite Join_snoc by done. rewrite append_empty_r.
      assert (strings.Join ps ": " +:+ ": " <> "") as Hj.
      { intros H. by apply append_eq_empty in H as [_ H]. }
      rewrite (bool_decide_eq_true_2 _ Hj).
      change (strings.Join [] ": ") with "".
      rewrite (bool_decide_eq_false_2 ("" ≠ "")) by (by intros H; apply H).
      case_bool_decide; by rewrite !append_assoc.
    + intros ->. done.
Qed.

(** * Further properties *)

(** ** Chains *)

Lemma derive_all_silent (w : world) (ds : list derivation) :
  derive_all SilentRef ds w = Some (SilentRef, w).
Proof.
  induction ds as [|d ds IH]; [done |]. simpl.
  assert (derive SilentRef d w = Some (SilentRef, w)) as H by (by destruct d).
  by rewrite (bind_run _ _ _ _ _ H).
Qed.

(** One derivation of a live [*log]: under the threshold it gives the null
    logger and touches nothing; otherwise a new live [*log] with the parent's
    threshold and depth and the parent's prefixes followed by [entry d]. *)
Lemma derive_step (w : world) (p : nat) (l : log) (d : derivation) :
  logs w !! p = Some l ->
  (under (level l) d = true /\ derive (LogRef p) d w = Some (SilentRef, w)) \/
  (under (level l) d = false /\
   exists q w1 l1,
     derive (LogRef p) d w = Some (LogRef q, w1) /\
     logs w1 !! q = Some l1 /\
     level l1 = level l /\ depth l1 = depth l /\
     current l1 = last_level (current l) [d] /\
     elems w1 (prefixes l1) = elems w (prefixes l) ++ entry d /\
     out w1 = out w).
Proof.
  intros Hp. destruct d as [lvl | kvs | name]; simpl.
  - destruct (decide (lvl < level l)%Z) as [Hlt | Hge].
    + left. rewrite bool_decide_eq_true_2 by done.
      by rewrite (log_V_silent_run w p l lvl).
    + right. rewrite bool_decide_eq_false_2 by done. split; [done |].
      destruct (log_V_run w p l lvl Hp Hge) as (s & tl & Hrun & _ & _ & Hel).
      eexists _, _, _. split; [exact Hrun |].
      split; [apply lookup_snoc_new |].
      repeat split; simpl; rewrite ?app_nil_r; done.
  - right. split; [done |].
    destruct (log_WithValues_run w p l kvs Hp) as (s & tl & Hrun & _ & _ & Hel).
    eexists _, _, _. split; [exact Hrun |].
    split; [apply lookup_snoc_new |]. repeat split; simpl; done.
  - right. split; [done |]. destruct (decide (name = "")) as [-> | Hne].
    + rewrite (log_WithName_empty_run w p l Hp).
      eexists _, _, _. split; [done |].
      split; [apply lookup_snoc_new |].
      repeat split; simpl; rewrite ?app_nil_r; done.
    + destruct (log_WithName_run w p l name Hp Hne)
        as (s & tl & Hrun & _ & _ & Hel).
      eexists _, _, _. split; [exact Hrun |].
      split; [apply lookup_snoc_new |]. repeat split; simpl; done.
Qed.

(** X1. A chain of [V], [WithValues] and [WithName] on a live logger always
    returns and never calls klog.  It ends in the null logger exactly when
    some [V] of the chain asks for a level under the threshold; otherwise
    it ends in a live logger with the root's threshold and depth, the level
    of the last [V], and the root's prefixes followed by the entries of the
    chain in call order. *)
Theorem derive_all_chain (ds : list derivation) (w : world) (p : nat) (l : log) :
  logs w !! p = Some l ->
  exists h w',
    derive_all (LogRef p) ds w = Some (h, w') /\
    out w' = out w /\
    (h = SilentRef <-> gated (level l) ds = true) /\
    (gated (level l) ds = false ->
     exists q l',
       h = LogRef q /\ logs w' !! q = Some l' /\
       level l' = level l /\ depth l' = depth l /\
       current l' = last_level (current l) ds /\
       elems w' (prefixes l') = elems w (prefixes l) ++ entries ds).
Proof.
  revert w p l. induction ds as [|d ds IH]; intros w p l Hp.
  - exists (LogRef p), w. split; [done |]. split; [done |].
    split; [done |]. intros _. exists p, l. simpl.
    by rewrite app_nil_r.
  - simpl derive_all. unfold gated. simpl existsb.
    destruct (derive_step w p l d Hp)
      as [[Hu Hrun] | (Hu & q & w1 & l1 & Hrun & Hq & Hlv & Hd & Hc & Hel & Ho)].
    + rewrite (bind_run _ _ _ _ _ Hrun), derive_all_silent, Hu.
      exists SilentRef, w. split; [done |]. split; [done |].
      split; [done |]. simpl. done.
    + rewrite (bind_run _ _ _ _ _ Hrun), Hu. simpl orb.
      destruct (IH w1 q l1 Hq) as (h & w' & Hrun' & Ho' & Hiff & Hlive).
      exists h, w'. split; [done |]. split; [congruence |].
      rewrite Hlv in Hiff, Hlive. split; [exact Hiff |].
      intros Hg.
      destruct (Hlive Hg) as (q' & l' & -> & Hq' & Hlv' & Hd' & Hc' & Hel').
      exists q', l'. split; [done |]. split; [done |].
      split; [congruence |]. split; [congruence |].
      split; [by rewrite Hc', Hc |].
      simpl entries. rewrite Hel', Hel. by rewrite <- app_assoc.
Qed.

(** ** Gating *)

(** X2. The handle that [V(L)] returns on a live logger of threshold [T]
    reports [Enabled()] exactly when [T <= L]; so if level [L] is enabled,
    every level above it is. *)
Theorem V_Enabled (w : world) (p : nat) (l : log) (L : Z) :
  logs w !! p = Some l ->
  exists h w',
    V (LogRef p) L w = Some (h, w') /\
    (Enabled h = true <-> (level l <= L)%Z) /\
    (Enabled h = true ->
     forall L', (L <= L')%Z ->
       exists h2 w2,
         V (LogRef p) L' w = Some (h2, w2) /\ Enabled h2 = true).
Proof.
  intros Hp.
  assert (forall K, exists h w',
            V (LogRef p) K w = Some (h, w') /\
            (Enabled h = true <-> (level l <= K)%Z)) as Hall.
  { intros K. simpl. destruct (decide (K < level l)%Z) as [Hlt | Hge].
    - exists SilentRef, w. rewrite (log_V_silent_run w p l K Hp Hlt).
      split; [done |]. simpl. split; [done | lia].
    - destruct (log_V_run w p l K Hp Hge) as (s & tl & Hrun & _).
      eexists _, _. split; [exact Hrun |]. simpl. split; [lia | done]. }
  destruct (Hall L) as (h & w' & Hrun & Hiff).
  exists h, w'. split; [done |]. split; [done |].
  intros Hen L' Hle. destruct (Hall L') as (h2 & w2 & Hrun2 & Hiff2).
  exists h2, w2. split; [done |]. apply Hiff2. apply Hiff in Hen. lia.
Qed.

(** X3. A message under the threshold costs nothing: when [L] is below the
    threshold of a live logger, [V(L)], any chain of derivations after it,
    and then [Info] or [Error] leave the whole world as it was: nothing is
    allocated and klog is not called. *)
Theorem below_threshold_untouched (w : world) (p : nat) (l : log) (L : Z)
    (ds : list derivation) :
  logs w !! p = Some l -> (L < level l)%Z ->
  (forall msg kvs,
     (h ← V (LogRef p) L; h' ← derive_all h ds; Info h' msg kvs) w
     = Some (tt, w)) /\
  (forall err msg kvs,
     (h ← V (LogRef p) L; h' ← derive_all h ds; Error h' err msg kvs) w
     = Some (tt, w)).
Proof.
  intros Hp Hlt.
  assert (V (LogRef p) L w = Some (SilentRef, w)) as HV
    by (by apply (log_V_silent_run w p l)).
  split; intros; rewrite (bind_run _ _ _ _ _ HV);
    by rewrite (bind_run _ _ _ _ _ (derive_all_silent w ds)).
Qed.

(** ** Depth *)

(** X4. The depth set by [WithDepth(d)] stays through later derivations:
    after [WithDepth(d)] and a chain with no [V] under the threshold, [Info]
    and [Error] hand klog the depth [d], with the line made of the parent's
    prefixes followed by the entries of the chain. *)
Theorem WithDepth_persists (w : world) (p : nat) (l : log) (d : Z)
    (ds : list derivation) :
  logs w !! p = Some l -> gated (level l) ds = false ->
  (forall msg kvs,
     exists w',
       (h ← log_WithDepth p d; h' ← derive_all h ds; Info h' msg kvs) w
       = Some (tt, w') /\
       out w' = out w ++ [InfoDepth d
                  (formatMsg_body (elems w (prefixes l) ++ entries ds) msg kvs)]) /\
  (forall err msg kvs,
     exists w',
       (h ← log_WithDepth p d; h' ← derive_all h ds; Error h' err msg kvs) w
       = Some (tt, w') /\
       out w' = out w ++ [ErrorDepth d
                  (formatMsg_body (elems w (prefixes l) ++ entries ds) msg
                     (iface err :: kvs))]).
Proof.
  intros Hp Hg.
  pose proof (log_WithDepth_run w p l d Hp) as HD.
  set (l0 := Log (current l) (level l) (prefixes l) d) in *.
  set (w0 := World (logs w ++ [l0]) (arrays w) (out w)) in *.
  assert (logs w0 !! length (logs w) = Some l0) as Hq0
    by apply lookup_snoc_new.
  destruct (derive_all_chain ds w0 _ l0 Hq0)
    as (h & w1 & Hrun & Hout & _ & Hlive).
  destruct (Hlive Hg) as (q & l1 & -> & Hq & _ & Hd & _ & Hel).
  simpl in Hd, Hout. change (elems w0 (prefixes l0)) with (elems w (prefixes l)) in Hel.
  split; intros.
  - eexists. rewrite (bind_run _ _ _ _ _ HD), (bind_run _ _ _ _ _ Hrun).
    simpl. rewrite (log_Info_run w1 q l1 _ _ Hq). split; [done |].
    simpl. by rewrite Hout, Hd, Hel.
  - eexists. rewrite (bind_run _ _ _ _ _ HD), (bind_run _ _ _ _ _ Hrun).
    simpl. rewrite (log_Error_run w1 q l1 _ _ _ Hq). split; [done |].
    simpl. by rewrite Hout, Hd, Hel.
Qed.

(** ** The root logger *)

(** X5. [NewLog(T)] in a well-formed world returns a pointer that was not
    allocated before, to a logger of threshold [T] that is enabled; the
    world stays well-formed and gains nothing else; [Info] on the new
    logger hands klog depth 1 and the bare message followed by the pairs,
    and [V(L)] on it is the null logger exactly when [L < T]. *)
Theorem NewLog_root (w : world) (T : Z) :
  wf w ->
  exists q w',
    NewLog T w = Some (LogRef q, w') /\
    logs w !! q = None /\
    logs w' !! q = Some (Log 0 T empty_slice 1) /\
    Enabled (LogRef q) = true /\
    wf w' /\ allocates w w' /\
    (forall msg kvs,
       exists w'',
         Info (LogRef q) msg kvs w' = Some (tt, w'') /\
         out w'' = out w ++ [InfoDepth 1
                     (msg +:+ (if decide (formatKeysAndValues kvs = "") then ""
                               else " " +:+ formatKeysAndValues kvs))]) /\
    (forall L, exists h w'',
       V (LogRef q) L w' = Some (h, w'') /\ (h = SilentRef <-> (L < T)%Z)).
Proof.
  intros Hwf.
  set (l0 := Log 0 T empty_slice 1).
  set (w0 := World (logs w ++ [l0]) (arrays w) (out w)).
  assert (logs w0 !! length (logs w) = Some l0) as Hq0
    by apply lookup_snoc_new.
  exists (length (logs w)), w0. split; [done |].
  split; [by apply lookup_ge_None_2 |]. split; [done |]. split; [done |].
  pose proof (alloc_log_wf w [] l0 Hwf (empty_slice_ok _)) as Hwf0.
  pose proof (alloc_log_allocates w [] l0) as Hal.
  rewrite app_nil_r in Hwf0, Hal.
  split; [done |]. split; [done |]. split.
  - intros msg kvs. eexists. simpl.
    rewrite (log_Info_run w0 _ l0 msg kvs Hq0). split; [done |]. simpl.
    do 3 f_equal. unfold formatMsg_body.
    change (elems w0 empty_slice) with (@nil string).
    change (strings.Join [] ": ") with "".
    rewrite (bool_decide_eq_false_2 ("" ≠ "")) by (by intros H; apply H).
    case_bool_decide; case_decide; try done. by rewrite append_empty_r.
  - intros L. simpl. destruct (decide (L < T)%Z) as [Hlt | Hge].
    + exists SilentRef, w0.
      by rewrite (log_V_silent_run w0 _ l0 L Hq0 Hlt).
    + destruct (log_V_run w0 _ l0 L Hq0 Hge) as (s & tl & Hrun & _).
      eexists _, _. split; [exact Hrun |]. split; [discriminate | done].
Qed.

(** ** Every other logger *)

(** X6. In a well-formed world, a derivation of a live logger ([V],
    [WithValues], [WithName], [WithDepth]) returns a usable handle, keeps
    the world well-formed, and changes no logger that exists: each one keeps
    its struct, the elements of its prefixes and the line it renders. *)
Theorem derivation_frame_all (w : world) (p : nat) (l : log)
    (d : log_derivation) :
  wf w -> logs w !! p = Some l ->
  exists h w',
    log_derive p d w = Some (h, w') /\
    wf w' /\ live_handle w' h /\
    forall q b,
      logs w !! q = Some b ->
      logs w' !! q = Some b /\
      elems w' (prefixes b) = elems w (prefixes b) /\
      forall msg kvs,
        log_formatMsg q msg kvs w'
        = Some (formatMsg_body (elems w (prefixes b)) msg kvs, w').
Proof.
  intros Hwf Hp.
  destruct (log_derive_allocates w p l d Hwf Hp) as (h & w' & Hrun & Hal & Hwf').
  exists h, w'. split; [done |]. split; [done |]. split.
  - destruct h as [q |]; [| done]. simpl.
    assert (forall l', is_Some ((logs w ++ [l']) !! length (logs w))) as Hnew.
    { intros l'. rewrite lookup_snoc_new. by eexists. }
    destruct d as [[lvl | kvs | name] | dep]; simpl in Hrun.
    + destruct (decide (lvl < level l)%Z) as [Hlt | Hge].
      * by rewrite (log_V_silent_run w p l lvl Hp Hlt) in Hrun.
      * destruct (log_V_run w p l lvl Hp Hge) as (s & tl & Hrun' & _).
        rewrite Hrun' in Hrun. injection Hrun as <- <-. apply Hnew.
    + destruct (log_WithValues_run w p l kvs Hp) as (s & tl & Hrun' & _).
      rewrite Hrun' in Hrun. injection Hrun as <- <-. apply Hnew.
    + destruct (decide (name = "")) as [-> | Hne].
      * rewrite (log_WithName_empty_run w p l Hp) in Hrun.
        injection Hrun as <- <-. apply Hnew.
      * destruct (log_WithName_run w p l name Hp Hne) as (s & tl & Hrun' & _).
        rewrite Hrun' in Hrun. injection Hrun as <- <-. apply Hnew.
    + rewrite (log_WithDepth_run w p l dep Hp) in Hrun.
      injection Hrun as <- <-. apply Hnew.
  - intros q b Hq.
    pose proof (allocates_live w w' q b Hal Hq) as Hq'.
    pose proof (allocates_elems w w' (prefixes b) Hal (Hwf q b Hq)) as Hel.
    split; [done |]. split; [done |]. intros msg kvs.
    by rewrite (log_formatMsg_run w' q b msg kvs Hq'), Hel.
Qed.

(** X7. Two children named from the same parent do not share an array:
    after [b := A.WithName(n1)] and [c := A.WithName(n2)] with non-empty
    names, [b] holds the parent's prefixes followed by [n1], [c] holds them
    followed by [n2], in different backing arrays, and the parent holds what
    it held. *)
Theorem WithName_siblings (w : world) (p : nat) (l : log) (n1 n2 : string) :
  wf w -> logs w !! p = Some l -> n1 <> "" -> n2 <> "" ->
  exists b c w' lb lc,
    (hb ← WithName (LogRef p) n1; hc ← WithName (LogRef p) n2;
     mret (hb, hc)) w = Some ((LogRef b, LogRef c), w') /\
    b <> c /\
    logs w' !! b = Some lb /\ logs w' !! c = Some lc /\
    logs w' !! p = Some l /\
    elems w' (prefixes lb) = elems w (prefixes l) ++ [n1] /\
    elems w' (prefixes lc) = elems w (prefixes l) ++ [n2] /\
    elems w' (prefixes l) = elems w (prefixes l) /\
    s_arr (prefixes lb) <> s_arr (prefixes lc).
Proof.
  intros Hwf Hp H1 H2. simpl.
  destruct (log_WithName_run w p l n1 Hp H1)
    as (s1 & tl1 & Hrun1 & Hok1 & Hfresh1 & Hel1).
  set (l1 := Log (current l) (level l) s1 (depth l)) in *.
  set (w1 := World (logs w ++ [l1]) (arrays w ++ tl1) (out w)) in *.
  assert (allocates w w1) as Hal1 by apply alloc_log_allocates.
  assert (wf w1) as Hwf1 by (by apply alloc_log_wf).
  pose proof (allocates_live w w1 p l Hal1 Hp) as Hp1.
  assert (logs w1 !! length (logs w) = Some l1) as Hb1
    by apply lookup_snoc_new.
  destruct (log_WithName_run w1 p l n2 Hp1 H2)
    as (s2 & tl2 & Hrun2 & Hok2 & Hfresh2 & Hel2).
  set (l2 := Log (current l) (level l) s2 (depth l)) in *.
  set (w2 := World (logs w1 ++ [l2]) (arrays w1 ++ tl2) (out w1)) in *.
  assert (allocates w1 w2) as Hal2 by apply alloc_log_allocates.
  assert (slice_ok w1 s1) as Hok1' by exact Hok1.
  pose proof (allocates_elems w w1 _ Hal1 (Hwf p l Hp)) as Hpe1.
  pose proof (allocates_elems w1 w2 _ Hal2 (Hwf1 p l Hp1)) as Hpe2.
  pose proof (allocates_elems w1 w2 s1 Hal2 Hok1') as Hbe.
  exists (length (logs w)), (length (logs w1)), w2, l1, l2.
  split; [by rewrite (bind_run _ _ _ _ _ Hrun1), (bind_run _ _ _ _ _ Hrun2) |].
  split; [simpl; rewrite length_app; simpl; lia |].
  split; [by apply (allocates_live w1 w2) |].
  split; [apply lookup_snoc_new |].
  split; [by apply (allocates_live w1 w2) |].
  split; [simpl prefixes; rewrite Hbe; exact Hel1 |].
  split; [simpl prefixes; change (elems w2 s2 = elems w (prefixes l) ++ [n2]);
          by rewrite <- Hpe1 |].
  split; [by rewrite Hpe2, Hpe1 |]. simpl prefixes.
  (* the first child's array was allocated before the second's *)
  pose proof (elems_length w1 s1 Hok1') as Hlen.
  change (elems w1 s1) with
    (elems (World (logs w) (arrays w ++ tl1) (out w)) s1) in Hlen.
  rewrite Hel1, length_app in Hlen. simpl in Hlen.
  destruct Hok1' as [Hle [Hc | (a & Ha & _)]]; [lia |].
  apply lookup_lt_Some in Ha. lia.
Qed.

(** ** Where an entry lands in the line *)

Lemma formatMsg_body_snoc (ps : list string) (e msg : string) kvs :
  e <> "" ->
  formatMsg_body (ps ++ [e]) msg kvs
  = (if decide (ps = []) then "" else strings.Join ps ": " +:+ ": ")
    +:+ e +:+ ": " +:+ formatMsg_body [] msg kvs.
Proof.
  intros He. unfold formatMsg_body.
  change (strings.Join [] ": ") with "".
  rewrite (bool_decide_eq_false_2 ("" ≠ "")) by (by intros H; apply H).
  destruct (decide (ps = [])) as [-> | Hps].
  - simpl app. simpl strings.Join.
    rewrite (bool_decide_eq_true_2 _ He).
    case_bool_decide; by rewrite ?append_assoc.
  - rewrite Join_snoc by done.
    assert (strings.Join ps ": " +:+ ": " +:+ e <> "") as Hj.
    { intros H. apply append_eq_empty in H as [_ H].
      by apply append_eq_empty in H as [H _]. }
    rewrite (bool_decide_eq_true_2 _ Hj).
    case_bool_decide; by rewrite ?append_assoc.
Qed.

(** X8. A child made by [WithName(name)], with a non-empty name, renders
    every line as the parent's joined prefixes and [": "] (when the parent
    has any prefix entry), then the name and [": "], then the message and
    pairs as a root logger renders them. *)
Theorem WithName_line (w : world) (p : nat) (l : log) (name : string) :
  logs w !! p = Some l -> name <> "" ->
  exists q w',
    WithName (LogRef p) name w = Some (LogRef q, w') /\
    forall msg kvs,
      log_formatMsg q msg kvs w'
      = Some ((if decide (elems w (prefixes l) = []) then ""
               else strings.Join (elems w (prefixes l)) ": " +:+ ": ")
              +:+ name +:+ ": " +:+ formatMsg_body [] msg kvs, w').
Proof.
  intros Hp Hne. simpl.
  destruct (log_WithName_run w p l name Hp Hne) as (s & tl & Hrun & _ & _ & Hel).
  set (l' := Log (current l) (level l) s (depth l)) in *.
  set (w' := World (logs w ++ [l']) (arrays w ++ tl) (out w)) in *.
  assert (logs w' !! length (logs w) = Some l') as Hq by apply lookup_snoc_new.
  exists (length (logs w)), w'. split; [exact Hrun |]. intros msg kvs.
  rewrite (log_formatMsg_run w' _ l' msg kvs Hq).
  change (elems w' (prefixes l')) with
    (elems (World (logs w) (arrays w ++ tl) (out w)) s).
  by rewrite Hel, formatMsg_body_snoc.
Qed.

(** X9. Context given to [WithValues] lands before the message: when the
    pairs render to a non-empty string, the child renders every line as the
    parent's joined prefixes and [": "] (when the parent has any prefix
    entry), then the rendered pairs and [": "], then the message and the
    call's own pairs. *)
Theorem WithValues_line (w : world) (p : nat) (l : log) (ctx : list value) :
  logs w !! p = Some l -> formatKeysAndValues ctx <> "" ->
  exists q w',
    WithValues (LogRef p) ctx w = Some (LogRef q, w') /\
    forall msg kvs,
      log_formatMsg q msg kvs w'
      = Some ((if decide (elems w (prefixes l) = []) then ""
               else strings.Join (elems w (prefixes l)) ": " +:+ ": ")
              +:+ formatKeysAndValues ctx +:+ ": "
              +:+ formatMsg_body [] msg kvs, w').
Proof.
  intros Hp Hne. simpl.
  destruct (log_WithValues_run w p l ctx Hp) as (s & tl & Hrun & _ & _ & Hel).
  set (l' := Log (current l) (level l) s (depth l)) in *.
  set (w' := World (logs w ++ [l']) (arrays w ++ tl) (out w)) in *.
  assert (logs w' !! length (logs w) = Some l') as Hq by apply lookup_snoc_new.
  exists (length (logs w)), w'. split; [exact Hrun |]. intros msg kvs.
  rewrite (log_formatMsg_run w' _ l' msg kvs Hq).
  change (elems w' (prefixes l')) with
    (elems (World (logs w) (arrays w ++ tl) (out w)) s).
  by rewrite Hel, formatMsg_body_snoc.
Qed.

(** ** Pairs *)

Lemma Join_app (l1 l2 : list string) (sep : string) :
  l1 <> [] -> l2 <> [] ->
  strings.Join (l1 ++ l2) sep
  = strings.Join l1 sep +:+ sep +:+ strings.Join l2 sep.
Proof.
  intros H1 H2. induction l1 as [|x [|y l1] IH]; [done | |].
  - simpl app. by rewrite Join_cons.
  - change ((x :: y :: l1) ++ l2) with (x :: ((y :: l1) ++ l2)).
    rewrite Join_cons by done. rewrite IH by done.
    rewrite (Join_cons x (y :: l1)) by done. by rewrite !append_assoc.
Qed.

(** X10. [formatKeysAndValues] renders position by position: the text of two
    runs of values put together is the text of the first, a single space,
    and the text of the second; an empty run adds nothing, not even the
    space. *)
Theorem formatKeysAndValues_app (kvs1 kvs2 : list value) :
  formatKeysAndValues (kvs1 ++ kvs2)
  = if decide (kvs1 = []) then formatKeysAndValues kvs2
    else if decide (kvs2 = []) then formatKeysAndValues kvs1
    else formatKeysAndValues kvs1 +:+ " " +:+ formatKeysAndValues kvs2.
Proof.
  destruct (decide (kvs1 = [])) as [-> | H1]; [done |].
  destruct (decide (kvs2 = [])) as [-> | H2]; [by rewrite app_nil_r |].
  rewrite !formatKeysAndValues_tokens, fmap_app.
  apply Join_app; by (intros ?%fmap_nil_inv).
Qed.

(** ** Logging reads, and writes only to klog *)

(** X11. [Info] and [Error] on a live logger change no logger and no array;
    each adds one call to klog's output.  So an [Info] followed by an
    [Error] leaves the two calls in that order, both at the logger's depth
    and both rendered from the same prefixes. *)
Theorem Info_then_Error (w : world) (p : nat) (l : log) m1 k1 err m2 k2 :
  logs w !! p = Some l ->
  exists w',
    (_ ← Info (LogRef p) m1 k1; Error (LogRef p) err m2 k2) w = Some (tt, w') /\
    logs w' = logs w /\ arrays w' = arrays w /\
    out w' = out w ++
      [InfoDepth (depth l) (formatMsg_body (elems w (prefixes l)) m1 k1);
       ErrorDepth (depth l)
         (formatMsg_body (elems w (prefixes l)) m2 (iface err :: k2))].
Proof.
  intros Hp. simpl.
  pose proof (log_Info_run w p l m1 k1 Hp) as HI.
  set (w1 := World (logs w) (arrays w) (out w ++ [InfoDepth (depth l)
               (formatMsg_body (elems w (prefixes l)) m1 k1)])) in *.
  assert (logs w1 !! p = Some l) as Hp1 by exact Hp.
  eexists. rewrite (bind_run _ _ _ _ _ HI).
  rewrite (log_Error_run w1 p l err m2 k2 Hp1).
  split; [done |]. simpl. split; [done |]. split; [done |].
  by rewrite <- app_assoc.
Qed.

End Log.

(** * Concrete runs *)

Lemma demo_world_wf : wf demo_world.
Proof.
  intros p l Hp. destruct p as [|[|p]]; simpl in Hp; [| | done].
  - injection Hp as <-. apply empty_slice_ok.
  - injection Hp as <-. split; simpl; [lia |]. right. by exists ["a"].
Qed.

Lemma V_gate_witness :
  logs demo_world !! 0 = Some demo_root /\ level demo_root = 2%Z /\
  exists h w',
    V double (LogRef 0) 3 demo_world = Some (h, w') /\
    (h = SilentRef <-> (3 < 2)%Z).
Proof.
  split; [reflexivity |]. split; [reflexivity |].
  destruct (V_gate double demo_world 0 demo_root 2 3 eq_refl eq_refl)
    as (h & w' & Hrun & Hiff & _).
  by exists h, w'.
Defined.

Lemma formatMsg_line_witness :
  logs demo_world !! 1 = Some demo_child /\
  log_formatMsg 1 "m" [VString "k"] demo_world = Some ("a: m k", demo_world).
Proof.
  split; [reflexivity |].
  destruct (formatMsg_line demo_world 1 demo_child "m" [VString "k"] eq_refl)
    as (Hrun & _).
  rewrite Hrun. reflexivity.
Defined.

(** C2 as stated fails.  The logger [NewLog(0).WithValues()] has the one
    prefix [""]; it renders ["m"], where the stated rule, with a prefix
    sequence that is not empty, gives [": m"].  And the pair [""] on a root
    logger renders ["m"], where the stated rule gives ["m "]. *)
Lemma formatMsg_spec_line_counterexample :
  (b ← NewLog 0; WithValues double b []) empty_world
  = Some (LogRef 1, ctx_world) /\
  logs ctx_world !! 1 = Some ctx_child /\
  elems ctx_world (prefixes ctx_child) = [""] /\
  log_formatMsg 1 "m" [] ctx_world = Some ("m", ctx_world) /\
  spec_line (elems ctx_world (prefixes ctx_child)) "m" [] = ": m" /\
  log_formatMsg 1 "m" [] ctx_world
  <> Some (spec_line (elems ctx_world (prefixes ctx_child)) "m" [], ctx_world) /\
  formatMsg_body [] "m" [VString ""] = "m" /\
  spec_line [] "m" [VString ""] = "m ".
Proof. repeat split. discriminate. Qed.

Lemma Error_as_Info_witness :
  logs demo_world !! 0 = Some demo_root /\
  elems demo_world (prefixes demo_root) = [] /\
  sole_line (Error (LogRef 0) (Err "boom") "failed" [] demo_world)
  = Some "failed boom".
Proof.
  split; [reflexivity |]. split; [reflexivity |].
  destruct (Error_as_Info demo_world 0 demo_root (Err "boom") "failed" []
              eq_refl) as (_ & _ & _ & Hrun).
  rewrite (Hrun eq_refl). reflexivity.
Defined.

Lemma derivation_frame_witness :
  wf demo_world /\ logs demo_world !! 1 = Some demo_child /\
  exists h w',
    log_derive double 1 (OfLogger (DWithName "b")) demo_world = Some (h, w') /\
    logs w' !! 1 = Some demo_child /\
    elems w' (prefixes demo_child) = ["a"].
Proof.
  split; [exact demo_world_wf |]. split; [reflexivity |].
  destruct (derivation_frame double demo_world 1 demo_child
              (OfLogger (DWithName "b")) demo_world_wf eq_refl)
    as (h & w' & Hrun & Hp & Hel & _).
  exists h, w'. split; [exact Hrun |]. split; [exact Hp |].
  rewrite Hel. reflexivity.
Defined.

Lemma WithName_order_witness :
  logs demo_world !! 1 = Some demo_child /\ "b" <> "" /\ "c" <> "" /\
  exists q w' l',
    (a ← WithName double (LogRef 1) "b"; WithName double a "c") demo_world
    = Some (LogRef q, w') /\
    logs w' !! q = Some l' /\
    elems w' (prefixes l') = ["a"; "b"; "c"].
Proof.
  split; [reflexivity |]. split; [discriminate |]. split; [discriminate |].
  destruct (WithName_order double demo_world 1 demo_child "b" "c" eq_refl)
    as ((q & w' & l' & Hrun & Hq & Hel & _) & _); [discriminate.. |].
  exists q, w', l'. split; [exact Hrun |]. split; [exact Hq |].
  rewrite Hel. reflexivity.
Defined.

Lemma WithName_empty_copy_witness :
  logs demo_world !! 1 = Some demo_child /\
  exists q w',
    WithName double (LogRef 1) "" demo_world = Some (LogRef q, w') /\
    q <> 1 /\ logs w' !! q = Some demo_child.
Proof.
  split; [reflexivity |].
  destruct (WithName_empty_copy double demo_world 1 demo_child eq_refl)
    as (q & w' & Hrun & Hne & _ & _ & Hq & _).
  by exists q, w'.
Defined.

Lemma WithDepth_only_depth_witness :
  logs demo_world !! 1 = Some demo_child /\
  exists q w',
    log_WithDepth 1 3 demo_world = Some (LogRef q, w') /\
    sole_line (Info (LogRef q) "m" [] w') = Some "a: m" /\
    sole_line (Info (LogRef 1) "m" [] demo_world) = Some "a: m".
Proof.
  split; [reflexivity |].
  destruct (WithDepth_only_depth demo_world 1 demo_child 3 eq_refl)
    as (q & w' & Hrun & _ & _ & _ & Hout & Hlines).
  destruct (Hlines "m" []) as (_ & _ & Hq & Hp & _).
  exists q, w'. split; [exact Hrun |]. rewrite Hq, Hp. simpl.
  rewrite Hout. split; reflexivity.
Defined.

Lemma Error_nil_witness :
  logs demo_world !! 0 = Some demo_root /\
  sole_line (Error (LogRef 0) ErrNil "failed" [] demo_world)
  = Some "failed <nil>".
Proof.
  split; [reflexivity |].
  destruct (Error_nil demo_world 0 demo_root "failed" [] eq_refl)
    as (_ & _ & _ & Hrun).
  rewrite Hrun. reflexivity.
Defined.

Lemma WithValues_empty_entry_witness :
  logs demo_world !! 1 = Some demo_child /\ formatKeysAndValues [] = "" /\
  exists q w',
    WithValues double (LogRef 1) [] demo_world = Some (LogRef q, w') /\
    log_formatMsg q "m" [] w' = Some ("a: : m", w').
Proof.
  split; [reflexivity |]. split; [reflexivity |].
  destruct (WithValues_empty_entry double demo_world 1 demo_child []
              eq_refl eq_refl)
    as (_ & q & w' & l' & Hrun & _ & _ & Hlines).
  destruct (Hlines "m" []) as [Hline _].
  exists q, w'. split; [exact Hrun |]. rewrite Hline; [reflexivity | discriminate].
Defined.

(** C10 as stated fails.  On a root logger, [WithValues()] appends [""] to
    no prefixes; the derived logger renders [Info("m")] as ["m"], the line
    of its parent, and that line holds no doubled separator.  And two pairs
    with empty tokens append [" "], not [""]. *)
Lemma WithValues_root_counterexample :
  NewLog 0 empty_world = Some (LogRef 0, root_world) /\
  WithValues double (LogRef 0) [] root_world = Some (LogRef 1, ctx_world) /\
  elems ctx_world (prefixes ctx_child) = [""] /\
  log_formatMsg 0 "m" [] ctx_world = Some ("m", ctx_world) /\
  log_formatMsg 1 "m" [] ctx_world = Some ("m", ctx_world) /\
  ~ doubled_separator "m" /\
  formatKeysAndValues [VString ""; VString ""] = " ".
Proof.
  repeat (split; [reflexivity |]). split; [| reflexivity].
  intros (a & b & H). destruct a as [|c [|c' a]]; discriminate.
Qed.

Lemma derive_all_chain_witness :
  logs demo_world !! 1 = Some demo_child /\
  exists h w' q l',
    derive_all double (LogRef 1)
      [DWithName "b"; DV 5; DWithName ""; DWithValues [VString "k"]]
      demo_world = Some (h, w') /\
    h = LogRef q /\ logs w' !! q = Some l' /\ current l' = 5%Z /\
    elems w' (prefixes l') = ["a"; "b"; "k"].
Proof.
  split; [reflexivity |].
  destruct (derive_all_chain double
              [DWithName "b"; DV 5; DWithName ""; DWithValues [VString "k"]]
              demo_world 1 demo_child eq_refl)
    as (h & w' & Hrun & _ & _ & Hlive).
  destruct (Hlive eq_refl) as (q & l' & Hh & Hq & _ & _ & Hc & Hel).
  exists h, w', q, l'. split; [exact Hrun |]. split; [exact Hh |].
  split; [exact Hq |]. split; [exact Hc |]. rewrite Hel. reflexivity.
Defined.

Lemma V_Enabled_witness :
  logs demo_world !! 0 = Some demo_root /\
  exists h w',
    V double (LogRef 0) 1 demo_world = Some (h, w') /\ Enabled h <> true.
Proof.
  split; [reflexivity |].
  destruct (V_Enabled double demo_world 0 demo_root 1 eq_refl)
    as (h & w' & Hrun & Hiff & _).
  exists h, w'. split; [exact Hrun |]. intros Hen.
  apply Hiff in Hen. simpl in Hen. lia.
Defined.

Lemma below_threshold_untouched_witness :
  logs demo_world !! 1 = Some demo_child /\ (1 < level demo_child)%Z /\
  (h ← V double (LogRef 1) 1; h' ← derive_all double h [DWithName "x"];
   Info h' "m" []) demo_world = Some (tt, demo_world).
Proof.
  split; [reflexivity |]. split; [reflexivity |].
  destruct (below_threshold_untouched double demo_world 1 demo_child 1
              [DWithName "x"] eq_refl eq_refl) as [HI _].
  apply HI.
Defined.

Lemma WithDepth_persists_witness :
  logs demo_world !! 1 = Some demo_child /\
  gated (level demo_child) [DWithName "b"] = false /\
  exists w',
    (h ← log_WithDepth 1 4; h' ← derive_all double h [DWithName "b"];
     Info h' "m" []) demo_world = Some (tt, w') /\
    out w' = [InfoDepth 4 "a: b: m"].
Proof.
  split; [reflexivity |]. split; [reflexivity |].
  destruct (WithDepth_persists double demo_world 1 demo_child 4
              [DWithName "b"] eq_refl eq_refl) as [HI _].
  destruct (HI "m" []) as (w' & Hrun & Hout).
  exists w'. split; [exact Hrun |]. rewrite Hout. reflexivity.
Defined.

Lemma NewLog_root_witness :
  wf demo_world /\
  exists q w',
    NewLog 7 demo_world = Some (LogRef q, w') /\ q = 2 /\ wf w'.
Proof.
  split; [exact demo_world_wf |].
  destruct (NewLog_root double demo_world 7 demo_world_wf)
    as (q & w' & Hrun & _ & _ & _ & Hwf & _).
  exists q, w'. split; [exact Hrun |]. split; [| exact Hwf].
  injection Hrun as Hq _. symmetry. exact Hq.
Defined.

Lemma derivation_frame_all_witness :
  wf demo_world /\ logs demo_world !! 1 = Some demo_child /\
  exists h w',
    log_derive double 1 (OfLogger (DWithValues [VString "k"])) demo_world
    = Some (h, w') /\
    logs w' !! 0 = Some demo_root /\
    log_formatMsg 1 "m" [] w' = Some ("a: m", w').
Proof.
  split; [exact demo_world_wf |]. split; [reflexivity |].
  destruct (derivation_frame_all double demo_world 1 demo_child
              (OfLogger (DWithValues [VString "k"])) demo_world_wf eq_refl)
    as (h & w' & Hrun & _ & _ & Hall).
  exists h, w'. split; [exact Hrun |].
  destruct (Hall 0 demo_root eq_refl) as (H0 & _).
  destruct (Hall 1 demo_child eq_refl) as (_ & _ & H1).
  split; [exact H0 |]. rewrite H1. reflexivity.
Defined.

Lemma WithName_siblings_witness :
  wf demo_world /\ logs demo_world !! 1 = Some demo_child /\
  "x" <> "" /\ "y" <> "" /\
  exists b c w' lb lc,
    (hb ← WithName double (LogRef 1) "x"; hc ← WithName double (LogRef 1) "y";
     mret (hb, hc)) demo_world = Some ((LogRef b, LogRef c), w') /\
    logs w' !! b = Some lb /\ logs w' !! c = Some lc /\
    elems w' (prefixes lb) = ["a"; "x"] /\
    elems w' (prefixes lc) = ["a"; "y"].
Proof.
  split; [exact demo_world_wf |]. split; [reflexivity |].
  split; [discriminate |]. split; [discriminate |].
  destruct (WithName_siblings double demo_world 1 demo_child "x" "y"
              demo_world_wf eq_refl)
    as (b & c & w' & lb & lc & Hrun & _ & Hb & Hc & _ & Heb & Hec & _);
    [discriminate.. |].
  exists b, c, w', lb, lc. split; [exact Hrun |]. split; [exact Hb |].
  split; [exact Hc |]. rewrite Heb, Hec. split; reflexivity.
Defined.

Lemma WithName_line_witness :
  logs demo_world !! 1 = Some demo_child /\ "b" <> "" /\
  exists q w',
    WithName double (LogRef 1) "b" demo_world = Some (LogRef q, w') /\
    log_formatMsg q "m" [VString "k"] w' = Some ("a: b: m k", w').
Proof.
  split; [reflexivity |]. split; [discriminate |].
  destruct (WithName_line double demo_world 1 demo_child "b" eq_refl)
    as (q & w' & Hrun & Hline); [discriminate |].
  exists q, w'. split; [exact Hrun |]. rewrite Hline. reflexivity.
Defined.

Lemma WithValues_line_witness :
  logs demo_world !! 1 = Some demo_child /\
  formatKeysAndValues [VString "k"; VOther (OInt 7)] <> "" /\
  exists q w',
    WithValues double (LogRef 1) [VString "k"; VOther (OInt 7)] demo_world
    = Some (LogRef q, w') /\
    log_formatMsg q "m" [] w' = Some ("a: k 7: m", w').
Proof.
  split; [reflexivity |]. split; [discriminate |].
  destruct (WithValues_line double demo_world 1 demo_child
              [VString "k"; VOther (OInt 7)] eq_refl)
    as (q & w' & Hrun & Hline); [discriminate |].
  exists q, w'. split; [exact Hrun |]. rewrite Hline. reflexivity.
Defined.

Lemma Info_then_Error_witness :
  logs demo_world !! 1 = Some demo_child /\
  exists w',
    (_ ← Info (LogRef 1) "m" []; Error (LogRef 1) (Err "e") "n" []) demo_world
    = Some (tt, w') /\
    out w' = [InfoDepth 1 "a: m"; ErrorDepth 1 "a: n e"].
Proof.
  split; [reflexivity |].
  destruct (Info_then_Error demo_world 1 demo_child "m" [] (Err "e") "n" []
              eq_refl) as (w' & Hrun & _ & _ & Hout).
  exists w'. split; [exact Hrun |]. rewrite Hout. reflexivity.
Defined.
